(** * influence25: the creator-qualification core, embedded in Rocq

    Shallow embedding of [server/lib/scoring.js] (score ladders, fraud
    heuristic, total score, grade, niche classifier, brand-target mapper)
    and of the qualification pipeline [runQualification] of the server
    entry point, followed by the properties stated for them.

    JavaScript numbers are IEEE 754 binary64 values; they are modelled by
    Rocq's primitive [float], whose operations are the same binary64
    operations (round to nearest, ties to even). *)

From Stdlib Require Import ZArith Bool List Lia String Ascii.
From Stdlib Require Import Permutation Sorted.
From Stdlib Require Import Floats.
From Stdlib Require Uint63.
Import ListNotations.

Set Warnings "-inexact-float".

(** ** JavaScript numbers *)

Module JS.

Local Open Scope float_scope.

(** The Number type. *)
Definition number := float.
Bind Scope float_scope with number.

(** [x >= y] and [x > y]; like [<=] and [<] they are false as soon as one
    side is NaN. *)
Definition geb (x y : number) : bool := y <=? x.
Definition gtb (x y : number) : bool := y <? x.

(** The Number that an integer of magnitude below 2^53 denotes; such an
    integer is a binary64 value, and the primitive conversion from 63-bit
    integers gives it. *)
Definition num_of_Z (n : Z) : number :=
  match n with
  | Z0 => zero
  | Zpos _ => of_uint63 (Uint63.of_Z n)
  | Zneg p => - of_uint63 (Uint63.of_Z (Zpos p))
  end.

(** [Math.max(a, b)] and [Math.min(a, b)] on two arguments: NaN if either
    is NaN, and [+0] is larger than [-0]. *)
Definition Math_max (a b : number) : number :=
  if is_nan a || is_nan b then nan
  else if a <? b then b
  else if b <? a then a
  else if get_sign a then b else a.

Definition Math_min (a b : number) : number :=
  if is_nan a || is_nan b then nan
  else if a <? b then a
  else if b <? a then b
  else if get_sign a then a else b.

Section Round.

Import PrimInt63.
Local Open Scope uint63_scope.

(** [Math.round(x)]: the integral Number closest to [x], the one closer to
    +infinity on a tie; NaN, the infinities, the zeros and integral values
    are returned as they are, and a result of zero keeps the sign of [x].

    [frshiftexp x] is [(f, se)] with [|x| = |f| * 2^(se - 2101)] and
    [1/2 <= |f| < 1], and [normfr_mantissa f] is the 53-bit integer
    [m = |f| * 2^53]. So [|x| = m / 2^s] with [s = 2101 + 53 - se]
    fractional bits: [x] is integral when [s <= 0], and below 1/4 in
    magnitude when [s >= 55]. In between, the result is
    [floor (x + 1/2)], that is [floor ((m + 2^(s-1)) / 2^s)] for a
    positive [x] and [- floor ((m + 2^(s-1) - 1) / 2^s)] for a negative
    one, computed exactly on 63-bit integers ([m + 2^(s-1)] is below
    2^54). *)
Definition Math_round (x : number) : number :=
  if is_nan x || is_infinity x || is_zero x then x
  else
    let (f, se) := frshiftexp x in
    let m := normfr_mantissa f in
    let neg := get_sign x in
    let signed (r : number) := if neg then (- r)%float else r in
    if leb 2154 se then x
    else
      let s := sub 2154 se in
      if leb 55 s then signed 0%float
      else
        let half := lsl 1 (sub s 1) in
        let n := if neg then lsr (sub (add m half) 1) s
                 else lsr (add m half) s in
        signed (of_uint63 n).

End Round.

(** The same function read off the sign, significand and exponent of the
    specification of binary64 values, with unbounded integers; it is the
    reference [Math_round] is compared with. *)
Definition Math_round_exact (x : number) : number :=
  match Prim2SF x with
  | S754_finite s m e =>
      if (0 <=? e)%Z then x
      else
        let sm := if s then Z.neg m else Z.pos m in
        let n := Z.shiftr (sm + Z.shiftl 1 (- e - 1)) (- e) in
        if (n =? 0)%Z then (if s then neg_zero else zero) else num_of_Z n
  | _ => x
  end.

(** [Number(x.toFixed(2))]. [toFixed(2)] prints the integer [n] for which
    [n / 100] is closest to [|x|] (the larger one on a tie), with the sign
    of [x] in front when [x < 0]; values that are not finite or are at
    least 1e21 in magnitude are printed by [ToString]. [Number] reads the
    decimal string back, correctly rounded. *)
Definition Number_toFixed2 (x : number) : number :=
  match Prim2SF x with
  | S754_finite _ m e =>
      if 1e21 <=? abs x then x
      else
        let n := match e with
                 | Zneg p => Z.shiftr (200 * Z.pos m + Z.shiftl 1 (Z.pos p))
                                      (Z.pos p + 1)
                 | _ => 100 * Z.shiftl (Z.pos m) e
                 end%Z in
        let neg := x <? 0 in
        match n with
        | Zpos p =>
            SF2Prim (SFdiv prec emax (S754_finite neg p 0)
                                     (S754_finite false 100 0))
        | _ => if neg then neg_zero else zero
        end
  | S754_zero _ => zero
  | _ => x
  end.

End JS.

(** ** server/lib/scoring.js *)

Module Scoring.

Import JS.
Local Open Scope float_scope.

(** [function clamp(n, min, max) { return Math.max(min, Math.min(max, n)); }] *)
Definition clamp (n min max : number) : number :=
  Math_max min (Math_min max n).

Definition computeErScore (er : number) : number :=
  if geb er 0.06 then 100
  else if geb er 0.03 then 70
  else if geb er 0.015 then 45
  else 20.

Definition computeConsistencyScore (contentsPerWeek : number) : number :=
  if geb contentsPerWeek 4 then 100
  else if geb contentsPerWeek 2 then 70
  else if geb contentsPerWeek 1 then 40
  else 20.

Definition computeNicheScore (confidence : number) : number :=
  if geb confidence 0.75 then 100
  else if geb confidence 0.6 then 75
  else if geb confidence 0.45 then 55
  else 35.

(** [computeReachScore({ reachAvailable, ratio })]; [None] is [null]. *)
Definition computeReachScore (reachAvailable : bool) (ratio : number)
  : option number :=
  if negb reachAvailable then None
  else if geb ratio 1.2 then Some 100
  else if geb ratio 0.8 then Some 75
  else if geb ratio 0.5 then Some 55
  else Some 35.

(** The three fraud rules, in source order. *)
Definition fraudRule1 (er followers : number) : bool :=
  gtb followers 20000 && (er <? 0.008).
Definition fraudRule2 (followers contentCount30d : number) : bool :=
  gtb followers 50000 && (contentCount30d <? 4).
Definition fraudRule3 (er contentCount30d : number) : bool :=
  gtb er 0.12 && (contentCount30d <? 6).

Definition computeFraudPenalty (er followers contentCount30d : number)
  : number :=
  let p := 0 in
  let p := if fraudRule1 er followers then p + 10 else p in
  let p := if fraudRule2 followers contentCount30d then p + 10 else p in
  let p := if fraudRule3 er contentCount30d then p + 10 else p in
  clamp p 0 30.

(** The argument object of [computeTotalScore]. [reachScore] is [Some r]
    exactly when [typeof reachScore === 'number']. *)
Record TotalInput := {
  erScore : number;
  reachScore : option number;
  consistencyScore : number;
  nicheScore : number;
  fraudPenalty : number;
  reachAvailable : bool
}.

(** The two weighted sums, evaluated left to right as the source writes
    them. *)
Definition weightedWithReach (e r c n p : number) : number :=
  0.30 * e + 0.25 * r + 0.20 * c + 0.15 * n - 0.10 * p.
Definition weightedNoReach (e c n p : number) : number :=
  0.40 * e + 0.25 * c + 0.20 * n - 0.15 * p.

Definition computeTotalScore (i : TotalInput) : number :=
  match reachAvailable i, reachScore i with
  | true, Some r =>
      let total := weightedWithReach (erScore i) r (consistencyScore i)
                                     (nicheScore i) (fraudPenalty i) in
      clamp (Math_round total) 0 100
  | _, _ =>
      let total := weightedNoReach (erScore i) (consistencyScore i)
                                   (nicheScore i) (fraudPenalty i) in
      clamp (Math_round total) 0 100
  end.

Definition grade (score : number) : string :=
  if geb score 80 then "A"%string
  else if geb score 60 then "B"%string
  else "C"%string.

(** *** Niche classifier (dictionary-based PT/ES)

    Strings are byte strings holding the UTF-8 text of the source; a
    substring test on the bytes is the substring test on the characters.
    An object literal used as a table is the list of its own properties
    in insertion order, which is the order [Object.keys] and
    [Object.entries] enumerate. *)

Local Open Scope string_scope.

Definition DICTS : list (string * list string) :=
  [ ("food", ["restaurante";"sushi";"comida";"delivery";"menú";"menu";"tapas";
              "reseña";"cocina";"chef";"hamburg";"ramen";"poke";"izakaya"]);
    ("beauty", ["maquillaje";"skincare";"uñas";"estética";"pelo";"cabello";
                "dermo";"beauty";"cosmética";"cosmetica"]);
    ("fitness", ["gym";"treino";"entreno";"proteína";"proteina";"dieta";
                 "fitness";"perder peso";"pérdida";"musculación";"musculacion"]);
    ("tech", ["apps";"gadget";"review";"iphone";"android";"software";"saas";
              "tecnología";"tecnologia";"ai";"ia"]);
    ("family", ["mamá";"mama";"hijos";"maternidad";"familia";"família";
                "crianza";"bebé";"bebe";"paternidad"]);
    ("travel", ["viaje";"viagem";"travel";"hotel";"ruta";"playa";"aeropuerto";
                "turismo";"trip"]);
    ("fashion", ["moda";"outfit";"look";"streetwear";"ropa";"zapatos";
                 "fashion"]) ].

(** [text.includes(w)] *)
Fixpoint includes (text w : string) : bool :=
  String.prefix w text
  || match text with
     | EmptyString => false
     | String _ rest => includes rest w
     end.

(** Property read [o[k]] on a table of own properties; [None] is
    [undefined]. *)
Fixpoint getProp {V : Type} (o : list (string * V)) (k : string) : option V :=
  match o with
  | [] => None
  | (k', v) :: o' => if String.eqb k' k then Some v else getProp o' k
  end.

(** Property write [o[k] = v]: an existing property keeps its place, a new
    one is added last. *)
Fixpoint setProp {V : Type} (o : list (string * V)) (k : string) (v : V)
  : list (string * V) :=
  match o with
  | [] => [(k, v)]
  | (k', v') :: o' =>
      if String.eqb k' k then (k', v) :: o' else (k', v') :: setProp o' k v
  end.

(** The two tables the loops update. Hit counts are small integers. *)
Record Tally := {
  scores : list (string * Z);
  evidence : list (string * list string)
}.

(** [Object.fromEntries(Object.keys(DICTS).map(k => [k, 0]))] and [{}]. *)
Definition initialTally : Tally :=
  {| scores := map (fun kw => (fst kw, 0%Z)) DICTS; evidence := [] |}.

(** The body of the inner loop, for keyword [w] of niche [k]. Every [k]
    visited is a key of [scores], so [scores[k]] is a number. *)
Definition visitWord (text k : string) (t : Tally) (w : string) : Tally :=
  if includes text w then
    let n := match getProp (scores t) k with Some n => n | None => 0%Z end in
    let scores' := setProp (scores t) k (n + 1)%Z in
    let ev := match getProp (evidence t) k with Some l => l | None => [] end in
    let evidence' := setProp (evidence t) k ev in
    let evidence'' :=
      if (List.length ev <? 8)%nat then setProp evidence' k (ev ++ [w])%list
      else evidence' in
    {| scores := scores'; evidence := evidence'' |}
  else t.

Definition visitNiche (text : string) (t : Tally) (kw : string * list string)
  : Tally :=
  fold_left (visitWord text (fst kw)) (snd kw) t.

Definition tally (text : string) : Tally :=
  fold_left (visitNiche text) DICTS initialTally.

(** [entries.sort((a, b) => b[1] - a[1])]: the sort is stable, so the
    result is the one a stable insertion sort gives, larger counts first
    and equal counts in their original order. *)
Fixpoint insertRanked (x : string * Z) (l : list (string * Z))
  : list (string * Z) :=
  match l with
  | [] => [x]
  | y :: l' => if (snd x <? snd y)%Z then y :: insertRanked x l' else x :: l
  end.

Definition sortRanked (l : list (string * Z)) : list (string * Z) :=
  fold_right insertRanked [] l.

(** [ranked.reduce((sum, [,v]) => sum + v, 0) || 1] *)
Definition totalHits (ranked : list (string * Z)) : Z :=
  let sum := fold_left (fun s kv => (s + snd kv)%Z) ranked 0%Z in
  if (sum =? 0)%Z then 1%Z else sum.

(** No keyword of any niche occurs in [text]. *)
Definition noKeyword (text : string) : bool :=
  forallb (fun kw => forallb (fun w => negb (includes text w)) (snd kw)) DICTS.

Record NicheResult := {
  primary_niche : string;
  secondary_niches : list string;
  confidence : number;
  evidence_keywords : list string
}.

Section Classifier.

(** [String.prototype.toLowerCase], the Unicode lower-case mapping of the
    runtime; the classifier is stated for any such mapping. *)
Variable toLowerCase : string -> string.

(** [classifyNiche({ bio = "", declared = "" })]. [None] stands for the
    TypeError of destructuring [ranked[0]] or [ranked[1]] when the table
    has fewer than two niches. *)
Definition classifyNiche (bio declared : string) : option NicheResult :=
  let text := toLowerCase (bio ++ " " ++ declared) in
  let t := tally text in
  let ranked := sortRanked (scores t) in
  match ranked with
  | (primary, pscore) :: (secondary, sscore) :: _ =>
      let total := totalHits ranked in
      let conf := (num_of_Z pscore / num_of_Z total)%float in
      let primary_niche :=
        if (pscore =? 0)%Z
        then (if negb (String.eqb declared "") then "general" else "general")
        else primary in
      let secondary_niches :=
        if (pscore =? 0)%Z then []
        else filter (fun _ => (0 <? sscore)%Z) [secondary] in
      let evidence_keywords :=
        firstn 8 (match getProp (evidence t) primary with
                  | Some l => l
                  | None => []
                  end) in
      Some {| primary_niche := primary_niche;
              secondary_niches := secondary_niches;
              confidence := Number_toFixed2 conf;
              evidence_keywords := evidence_keywords |}
  | _ => None
  end.

End Classifier.

(** A lower-case mapping for examples: it maps the ASCII letters A-Z to
    a-z and leaves every other byte as it is, as [toLowerCase] does on
    text whose only upper-case letters are ASCII. *)
Definition lowerAscii (c : ascii) : ascii :=
  let n := nat_of_ascii c in
  if ((65 <=? n) && (n <=? 90))%nat then ascii_of_nat (n + 32) else c.

Fixpoint toLowerCaseAscii (s : string) : string :=
  match s with
  | EmptyString => EmptyString
  | String c s' => String (lowerAscii c) (toLowerCaseAscii s')
  end.

(** *** Brand target mapping *)

Record BrandEntry := { local : list string; ecommerce : list string }.

Definition BRAND_MAP_general : BrandEntry :=
  {| local := ["serviços locais";"eventos";"restaurantes"];
     ecommerce := ["e-commerce geral";"apps";"produtos de alta rotatividade"] |}.

Definition BRAND_MAP : list (string * BrandEntry) :=
  [ ("food",
     {| local := ["restaurantes locais";"dark kitchens";"cafés";
                  "eventos gastronômicos";"apps de reservas"];
        ecommerce := ["utensílios de cozinha";"assinatura gourmet";
                      "boxes de comida"] |});
    ("beauty",
     {| local := ["clínicas estéticas";"salões";"dermoclínicas"];
        ecommerce := ["skincare DTC";"makeup";"haircare"] |});
    ("fitness",
     {| local := ["academias";"studios de treino";"personal training"];
        ecommerce := ["roupa esportiva";"acessórios fitness"] |});
    ("tech",
     {| local := ["assistência técnica";"lojas de acessórios";"coworkings"];
        ecommerce := ["gadgets";"apps/SaaS";"fintechs"] |});
    ("family",
     {| local := ["escolas/atividades";"lojas infantis";"serviços familiares"];
        ecommerce := ["produtos baby";"brinquedos";"assinaturas educativas"] |});
    ("travel",
     {| local := ["agências locais";"tours";"guias"];
        ecommerce := ["malas";"acessórios viagem";"seguros"] |});
    ("fashion",
     {| local := ["boutiques";"barbearias/estilo";"fotografia"];
        ecommerce := ["streetwear";"acessórios";"calçados"] |});
    ("general", BRAND_MAP_general) ].

(** [BRAND_MAP] is an object literal, so a property read that finds no own
    property goes on to [Object.prototype]. These are the names it
    defines; each holds a function, or for [__proto__] the prototype
    object itself. *)
Definition objectPrototypeKeys : list string :=
  [ "constructor"; "__defineGetter__"; "__defineSetter__"; "hasOwnProperty";
    "__lookupGetter__"; "__lookupSetter__"; "isPrototypeOf";
    "propertyIsEnumerable"; "toString"; "valueOf"; "__proto__";
    "toLocaleString" ].

(** What [BRAND_MAP[niche]] evaluates to. *)
Variant Lookup :=
| OwnEntry (e : BrandEntry)
| Inherited (name : string)
| Undefined.

Definition lookupBrandMap (niche : string) : Lookup :=
  match getProp BRAND_MAP niche with
  | Some e => OwnEntry e
  | None =>
      if existsb (String.eqb niche) objectPrototypeKeys then Inherited niche
      else Undefined
  end.

(** [a || b]: objects and functions are truthy, [undefined] is not. *)
Definition orElse (a b : Lookup) : Lookup :=
  match a with
  | Undefined => b
  | _ => a
  end.

(** [map.local] and [map.ecommerce]; [None] is [undefined], which is what
    a function or the prototype object gives for these names. The
    operand of [||] on the right is an entry, so [map] is never
    [undefined]. *)
Definition readField (f : BrandEntry -> list string) (map : Lookup)
  : option (list string) :=
  match map with
  | OwnEntry e => Some (f e)
  | Inherited _ => None
  | Undefined => None
  end.

Record BrandTargets := {
  targets_local : option (list string);
  targets_ecommerce : option (list string)
}.

Definition buildBrandTargets (niche : string) : BrandTargets :=
  let map := orElse (lookupBrandMap niche) (OwnEntry BRAND_MAP_general) in
  {| targets_local := readField local map;
     targets_ecommerce := readField ecommerce map |}.

End Scoring.

(** ** The server: persistent store and qualification pipeline *)

Module Server.

Import JS Scoring.
Local Open Scope string_scope.

(** *** Tables (db/schema.sql), with the columns the pipeline writes *)

Record Creator := {
  creator_id : string;
  declared_category : option string;
  status : string;
  updated_at : string
}.

Record ProfileSnapshot := {
  ps_id : nat;
  ps_account_id : string;
  ps_snapshot_date : string;
  ps_created_at : string
}.

Record ContentMetricsDaily := {
  cm_id : nat;
  cm_account_id : string;
  cm_day : string;
  cm_posts_count : number;
  cm_reels_count : number;
  cm_likes_total : number;
  cm_comments_total : number;
  cm_created_at : string
}.

Record NicheClassification := {
  nc_id : nat;
  nc_creator_id : string;
  nc_primary_niche : string;
  nc_secondary_niches : list string;
  nc_confidence : number;
  nc_evidence_keywords : list string;
  nc_model_version : string;
  nc_computed_at : string
}.

Record CreatorScore := {
  cs_id : nat;
  cs_creator_id : string;
  cs_score_total : number;
  cs_grade : string;
  cs_er_score : number;
  cs_reach_score : number;
  cs_consistency_score : number;
  cs_niche_score : number;
  cs_fraud_penalty : number;
  cs_scoring_version : string;
  cs_computed_at : string
}.

Record BrandTarget := {
  bt_id : nat;
  bt_creator_id : string;
  bt_target_type : string;
  bt_segment : string;
  bt_suggested_brands : list string;
  bt_generated_at : string
}.

(** The [metadata] object of the QUALIFIED audit entry. *)
Record QualifiedMetadata := {
  md_grade : string;
  md_score : number;
  md_niche : string
}.

Record AuditLog := {
  al_id : nat;
  al_actor_type : string;
  al_actor_id : string;
  al_action : string;
  al_target_type : string;
  al_target_id : string;
  al_metadata : option QualifiedMetadata;
  al_created_at : string
}.

(** The database: every table is the list of its rows in insertion
    order. *)
Record Db := {
  creators : list Creator;
  profile_snapshots : list ProfileSnapshot;
  content_metrics_daily : list ContentMetricsDaily;
  niche_classification : list NicheClassification;
  creator_scores : list CreatorScore;
  brand_targets : list BrandTarget;
  audit_log : list AuditLog
}.

(** The process state: the database and the supply of [nanoid()] values,
    which are modelled by a counter. *)
Record World := { db : Db; nextId : nat }.

(** *** Statements and failures

    Each statement is run on its own, outside any transaction, so its
    effect is committed as soon as it returns. A statement may throw (the
    store is busy, full, or refuses a value); which ones do is given by a
    fault plan. *)

Variant Stmt :=
| SelectCreator
| InsertSnapshot
| InsertMetrics
| InsertNiche
| InsertScore
| InsertBrandLocal
| InsertBrandEcommerce
| UpdateStatus
| InsertAudit.

Variant Error :=
| SqliteError (s : Stmt)
| TypeError.

Variant Outcome (A : Type) :=
| Ok (a : A)
| Throw (e : Error).
Arguments Ok {A} a.
Arguments Throw {A} e.

(** A computation reads and writes the world and returns or throws; what
    was written before a throw stays written. *)
Definition M (A : Type) : Type := World -> World * Outcome A.

Definition ret {A : Type} (a : A) : M A := fun w => (w, Ok a).

Definition bind {A B : Type} (c : M A) (k : A -> M B) : M B :=
  fun w =>
    match c w with
    | (w', Ok a) => k a w'
    | (w', Throw e) => (w', Throw e)
    end.

Definition throw {A : Type} (e : Error) : M A := fun w => (w, Throw e).

Notation "x <- c ;; k" := (bind c (fun x => k))
  (at level 61, c at next level, right associativity).
Notation "c ;;; k" := (bind c (fun _ => k))
  (at level 61, right associativity).

(** [nanoid()] *)
Definition nanoid : M nat :=
  fun w => ({| db := db w; nextId := S (nextId w) |}, Ok (nextId w)).

Section Pipeline.

Variable faults : Stmt -> bool.
Variable toLowerCase : string -> string.

(** [db.prepare(sql).get(...)]: a read. *)
Definition query {A : Type} (s : Stmt) (f : Db -> A) : M A :=
  fun w => if faults s then (w, Throw (SqliteError s)) else (w, Ok (f (db w))).

(** [db.prepare(sql).run(...)]: a write. *)
Definition exec (s : Stmt) (f : Db -> Db) : M unit :=
  fun w =>
    if faults s then (w, Throw (SqliteError s))
    else ({| db := f (db w); nextId := nextId w |}, Ok tt).

(** [SELECT declared_category FROM creators WHERE id=?], first row. *)
Definition selectCreator (id : string) (d : Db) : option Creator :=
  find (fun c => String.eqb (creator_id c) id) (creators d).

(** [UPDATE creators SET status=?, updated_at=? WHERE id=?] *)
Definition updateStatus (id st ts : string) (d : Db) : Db :=
  {| creators :=
       map (fun c =>
              if String.eqb (creator_id c) id
              then {| creator_id := creator_id c;
                      declared_category := declared_category c;
                      status := st; updated_at := ts |}
              else c) (creators d);
     profile_snapshots := profile_snapshots d;
     content_metrics_daily := content_metrics_daily d;
     niche_classification := niche_classification d;
     creator_scores := creator_scores d;
     brand_targets := brand_targets d;
     audit_log := audit_log d |}.

Definition insertSnapshot (r : ProfileSnapshot) (d : Db) : Db :=
  {| creators := creators d;
     profile_snapshots := profile_snapshots d ++ [r];
     content_metrics_daily := content_metrics_daily d;
     niche_classification := niche_classification d;
     creator_scores := creator_scores d;
     brand_targets := brand_targets d;
     audit_log := audit_log d |}.

Definition insertMetrics (r : ContentMetricsDaily) (d : Db) : Db :=
  {| creators := creators d;
     profile_snapshots := profile_snapshots d;
     content_metrics_daily := content_metrics_daily d ++ [r];
     niche_classification := niche_classification d;
     creator_scores := creator_scores d;
     brand_targets := brand_targets d;
     audit_log := audit_log d |}.

Definition insertNiche (r : NicheClassification) (d : Db) : Db :=
  {| creators := creators d;
     profile_snapshots := profile_snapshots d;
     content_metrics_daily := content_metrics_daily d;
     niche_classification := niche_classification d ++ [r];
     creator_scores := creator_scores d;
     brand_targets := brand_targets d;
     audit_log := audit_log d |}.

Definition insertScore (r : CreatorScore) (d : Db) : Db :=
  {| creators := creators d;
     profile_snapshots := profile_snapshots d;
     content_metrics_daily := content_metrics_daily d;
     niche_classification := niche_classification d;
     creator_scores := creator_scores d ++ [r];
     brand_targets := brand_targets d;
     audit_log := audit_log d |}.

Definition insertBrandTarget (r : BrandTarget) (d : Db) : Db :=
  {| creators := creators d;
     profile_snapshots := profile_snapshots d;
     content_metrics_daily := content_metrics_daily d;
     niche_classification := niche_classification d;
     creator_scores := creator_scores d;
     brand_targets := brand_targets d ++ [r];
     audit_log := audit_log d |}.

Definition insertAudit (r : AuditLog) (d : Db) : Db :=
  {| creators := creators d;
     profile_snapshots := profile_snapshots d;
     content_metrics_daily := content_metrics_daily d;
     niche_classification := niche_classification d;
     creator_scores := creator_scores d;
     brand_targets := brand_targets d;
     audit_log := audit_log d ++ [r] |}.

(** [logAudit] as the pipeline calls it. *)
Definition logAudit (actor_type actor_id action target_type target_id : string)
  (metadata : option QualifiedMetadata) (now : string) : M unit :=
  id <- nanoid ;;
  exec InsertAudit
    (insertAudit {| al_id := id; al_actor_type := actor_type;
                    al_actor_id := actor_id; al_action := action;
                    al_target_type := target_type; al_target_id := target_id;
                    al_metadata := metadata; al_created_at := now |}).

(** [JSON.stringify(x)] of a list of strings is kept as the list; for
    [undefined] there is no string to bind and the statement throws. *)
Definition bindList (x : option (list string)) : M (list string) :=
  match x with
  | Some l => ret l
  | None => throw TypeError
  end.

(** [runQualification({ creator_id, account_id })]. The clock is read
    four times: [ts] by [nowIso()] on entry, [snapshot_date] and [day] by
    the two [new Date()] calls, [audit_ts] by [nowIso()] in [logAudit]. *)
Definition runQualification (ts snapshot_date day audit_ts : string)
  (creator_id account_id : string) : M unit :=
  creator <- query SelectCreator (selectCreator creator_id) ;;
  id <- nanoid ;;
  exec InsertSnapshot
    (insertSnapshot {| ps_id := id; ps_account_id := account_id;
                       ps_snapshot_date := snapshot_date;
                       ps_created_at := ts |}) ;;;
  id <- nanoid ;;
  exec InsertMetrics
    (insertMetrics {| cm_id := id; cm_account_id := account_id; cm_day := day;
                      cm_posts_count := 0%float; cm_reels_count := 0%float;
                      cm_likes_total := 0%float; cm_comments_total := 0%float;
                      cm_created_at := ts |}) ;;;
  let declared :=
    match creator with
    | Some c => match declared_category c with
                | Some s => if String.eqb s "" then "" else s
                | None => ""
                end
    | None => ""
    end in
  match classifyNiche toLowerCase "" declared with
  | None => throw TypeError
  | Some niche =>
  id <- nanoid ;;
  exec InsertNiche
    (insertNiche {| nc_id := id; nc_creator_id := creator_id;
                    nc_primary_niche := primary_niche niche;
                    nc_secondary_niches := secondary_niches niche;
                    nc_confidence := confidence niche;
                    nc_evidence_keywords := evidence_keywords niche;
                    nc_model_version := "dict-v1";
                    nc_computed_at := ts |}) ;;;
  let followers := 1000%float in
  let likes := 50%float in
  let comments := 5%float in
  let contentCount30d := 8%float in
  let er := ((likes + comments) / followers)%float in
  let erScore := computeErScore er in
  let consistencyScore := computeConsistencyScore (contentCount30d / 4)%float in
  let nicheScore := computeNicheScore (confidence niche) in
  let reachAvailable := false in
  let reachScore :=
    match computeReachScore reachAvailable 0%float with
    | Some r => r
    | None => 0%float
    end in
  let fraudPenalty := computeFraudPenalty er followers contentCount30d in
  let total :=
    computeTotalScore
      {| Scoring.erScore := erScore; Scoring.reachScore := Some reachScore;
         Scoring.consistencyScore := consistencyScore;
         Scoring.nicheScore := nicheScore;
         Scoring.fraudPenalty := fraudPenalty;
         Scoring.reachAvailable := reachAvailable |} in
  let g := grade total in
  id <- nanoid ;;
  exec InsertScore
    (insertScore {| cs_id := id; cs_creator_id := creator_id;
                    cs_score_total := total; cs_grade := g;
                    cs_er_score := erScore; cs_reach_score := reachScore;
                    cs_consistency_score := consistencyScore;
                    cs_niche_score := nicheScore;
                    cs_fraud_penalty := fraudPenalty;
                    cs_scoring_version := "score-v1";
                    cs_computed_at := ts |}) ;;;
  let targets := buildBrandTargets (primary_niche niche) in
  id <- nanoid ;;
  brands <- bindList (targets_local targets) ;;
  exec InsertBrandLocal
    (insertBrandTarget {| bt_id := id; bt_creator_id := creator_id;
                          bt_target_type := "local";
                          bt_segment := primary_niche niche;
                          bt_suggested_brands := brands;
                          bt_generated_at := ts |}) ;;;
  id <- nanoid ;;
  brands <- bindList (targets_ecommerce targets) ;;
  exec InsertBrandEcommerce
    (insertBrandTarget {| bt_id := id; bt_creator_id := creator_id;
                          bt_target_type := "ecommerce";
                          bt_segment := primary_niche niche;
                          bt_suggested_brands := brands;
                          bt_generated_at := ts |}) ;;;
  exec UpdateStatus (updateStatus creator_id "qualified" ts) ;;;
  logAudit "system" "pipeline" "QUALIFIED" "creator" creator_id
    (Some {| md_grade := g; md_score := total;
             md_niche := primary_niche niche |}) audit_ts
  end.

End Pipeline.

(** *** What the overview reads as current *)

(** [... WHERE creator_id=? ORDER BY computed_at DESC LIMIT 1]: the row
    with the greatest [computed_at] among those of the creator. Among
    rows with equal keys the store may return any; the model takes the
    earliest inserted. *)
Fixpoint latestBy {R : Type} (key : R -> string) (rows : list R) : option R :=
  match rows with
  | [] => None
  | r :: rows' =>
      match latestBy key rows' with
      | Some r' => if String.ltb (key r) (key r') then Some r' else Some r
      | None => Some r
      end
  end.

Definition latestNiche (d : Db) (id : string) : option NicheClassification :=
  latestBy nc_computed_at
    (filter (fun r => String.eqb (nc_creator_id r) id) (niche_classification d)).

Definition latestScore (d : Db) (id : string) : option CreatorScore :=
  latestBy cs_computed_at
    (filter (fun r => String.eqb (cs_creator_id r) id) (creator_scores d)).

(** [... ORDER BY key DESC]: the rows, greatest key first. Among rows
    with equal keys the store may return any order; the model keeps the
    order of insertion. *)
Fixpoint insertDesc {R : Type} (key : R -> string) (x : R) (rows : list R)
  : list R :=
  match rows with
  | [] => [x]
  | y :: rows' =>
      if String.ltb (key x) (key y) then y :: insertDesc key x rows'
      else x :: rows
  end.

Definition orderByDesc {R : Type} (key : R -> string) (rows : list R)
  : list R :=
  fold_right (insertDesc key) [] rows.

(** [SELECT * FROM brand_targets WHERE creator_id=? ORDER BY generated_at
    DESC] *)
Definition brandTargetsOf (d : Db) (id : string) : list BrandTarget :=
  orderByDesc bt_generated_at
    (filter (fun r => String.eqb (bt_creator_id r) id) (brand_targets d)).

Definition statusOf (d : Db) (id : string) : option string :=
  option_map status (selectCreator id d).

(** What a reader sees as current for a creator. *)
Definition currentView (d : Db) (id : string)
  : option string * option NicheClassification * option CreatorScore
    * list BrandTarget :=
  (statusOf d id, latestNiche d id, latestScore d id, brandTargetsOf d id).

Definition isThrow {A : Type} (o : Outcome A) : bool :=
  match o with
  | Throw _ => true
  | Ok _ => false
  end.

(** What a score row [r] built from the placeholder signals looks like,
    for the classification row [n] written by the same run: the sub-scores
    are fixed, and the niche score and the total are functions of the
    confidence of [n] alone. *)
Definition placeholderRow (n : NicheClassification) (r : CreatorScore)
  : Prop :=
  cs_er_score r = 70%float /\ cs_consistency_score r = 70%float
  /\ cs_fraud_penalty r = 0%float /\ cs_reach_score r = 0%float
  /\ cs_niche_score r = computeNicheScore (nc_confidence n)
  /\ cs_score_total r
     = computeTotalScore
         {| erScore := 70%float; reachScore := Some 0%float;
            consistencyScore := 70%float;
            nicheScore := computeNicheScore (nc_confidence n);
            fraudPenalty := 0%float; reachAvailable := false |}
  /\ In (cs_niche_score r, cs_score_total r)
        [(35, 53); (55, 57); (75, 61); (100, 66)]%float
  /\ (cs_score_total r <=? 66)%float = true
  /\ cs_grade r = grade (cs_score_total r)
  /\ In (cs_grade r) ["B"; "C"].

Definition Stmt_eqb (a b : Stmt) : bool :=
  match a, b with
  | SelectCreator, SelectCreator | InsertSnapshot, InsertSnapshot
  | InsertMetrics, InsertMetrics | InsertNiche, InsertNiche
  | InsertScore, InsertScore | InsertBrandLocal, InsertBrandLocal
  | InsertBrandEcommerce, InsertBrandEcommerce | UpdateStatus, UpdateStatus
  | InsertAudit, InsertAudit => true
  | _, _ => false
  end.

(** The fault plans in which no statement fails, and in which exactly one
    does. *)
Definition noFault : Stmt -> bool := fun _ => false.
Definition failAt (s : Stmt) : Stmt -> bool := Stmt_eqb s.

(** A store with one connected creator and nothing computed yet. *)
Definition exampleWorld : World :=
  {| db := {| creators := [ {| creator_id := "c1";
                               declared_category := Some "Sushi y ramen";
                               status := "connected";
                               updated_at := "2026-01-31T09:00:00.000Z" |} ];
              profile_snapshots := []; content_metrics_daily := [];
              niche_classification := []; creator_scores := [];
              brand_targets := []; audit_log := [] |};
     nextId := 0 |}.

(** The all-or-nothing reading of a failed run: whenever the invocation
    throws, what is current for the creator is what it was before. *)
Definition atomicOnFailure : Prop :=
  forall (faults : Stmt -> bool) (toLowerCase : string -> string)
         (ts snapshot_date day audit_ts id account_id : string) (w : World),
    let r := runQualification faults toLowerCase ts snapshot_date day
                              audit_ts id account_id w in
    isThrow (snd r) = true ->
    currentView (db (fst r)) id = currentView (db w) id.

End Server.

(** ** Exact reference for the total score

    On integer sub-scores the weighted sums are multiples of 1/20. The
    definitions below give twenty times the exact sums, and the relation
    "k is an integer nearest to q/20". *)

Module Exact.

Local Open Scope Z_scope.

Definition sumWithReach20 (e r c n p : Z) : Z :=
  6 * e + 5 * r + 4 * c + 3 * n - 2 * p.

Definition sumNoReach20 (e c n p : Z) : Z :=
  8 * e + 5 * c + 4 * n - 3 * p.

Definition clampZ (k lo hi : Z) : Z := Z.max lo (Z.min hi k).

(** [k] is at distance at most 1/2 from [q/20]. *)
Definition nearest20 (q k : Z) : Prop := Z.abs (20 * k - q) <= 10.

(** Rounding [q/20] half up and half down. *)
Definition halfUp20 (q : Z) : Z := (q + 10) / 20.
Definition halfDown20 (q : Z) : Z := (q + 9) / 20.

End Exact.

(** ** Neighbourhoods of binary64 values

    The partial sums of the total score are followed through binary64
    arithmetic by the set of values they can take: a partial sum whose
    exact value is [q/20] stays within a few units in the last place of
    the binary64 value closest to [q/20]. The sets are finite, so each
    step is checked by evaluation. *)

Module Ulp.

Import JS Scoring Exact.
Local Open Scope Z_scope.

Definition Zrange (lo : Z) (len : nat) : list Z :=
  map (fun i => (lo + Z.of_nat i)%Z) (seq 0 len).

(** Small non-negative integers as Numbers, through the primitive
    conversion. *)
Definition fastZ (n : Z) : number := of_uint63 (Uint63.of_Z n).

Fixpoint ups (K : nat) (c : number) : list number :=
  match K with
  | O => []
  | S K' => next_up c :: ups K' (next_up c)
  end.

Fixpoint downs (K : nat) (c : number) : list number :=
  match K with
  | O => []
  | S K' => next_down c :: downs K' (next_down c)
  end.

(** The values at most [K] units in the last place away from [c]. *)
Definition nbhd (K : nat) (c : number) : list number :=
  c :: ups K c ++ downs K c.

(** The binary64 value closest to [q/20]. *)
Definition centre (q : Z) : number := (fastZ q / 20)%float.

Definition mem (t : number) (l : list number) : bool :=
  existsb (PrimFloat.Leibniz.eqb t) l.

Definition near (K : nat) (q : Z) (t : number) : bool :=
  mem t (nbhd K (centre q)).

Definition term (w : number) (i : Z) : number := (w * fastZ i)%float.

(** The first two products, added: within [K] of the centre. *)
Definition first_ok (K : nat) (w0 : number) (wq0 : Z) (w1 : number) (wq1 : Z)
  : bool :=
  forallb (fun e =>
    let a := term w0 e in
    forallb (fun r => near K (wq0 * e + wq1 * r) (a + term w1 r)%float)
            (Zrange 0 101))
    (Zrange 0 101).

(** Adding one more product [w * i], [0 <= i <= 100], takes the [K]
    neighbourhood of [q/20] into the [K'] neighbourhood of
    [(q + wq * i)/20], for every [0 <= q <= qmax]. *)
Definition stage_ok (K K' : nat) (qmax : nat) (w : number) (wq : Z) : bool :=
  forallb (fun q =>
    let nb := nbhd K (centre q) in
    forallb (fun i =>
      let nb' := nbhd K' (centre (q + wq * i)) in
      let v := term w i in
      forallb (fun t => mem (t + v)%float nb') nb)
      (Zrange 0 101))
    (Zrange 0 (S qmax)).

(** The clamped rounding of [t] is one of the two clamped roundings of
    [q/20]. *)
Definition roundsTo (t : number) (q : Z) : bool :=
  let r := clamp (Math_round t) 0 100 in
  PrimFloat.Leibniz.eqb r (fastZ (clampZ (halfUp20 q) 0 100))
  || PrimFloat.Leibniz.eqb r (fastZ (clampZ (halfDown20 q) 0 100)).

(** Subtracting the penalty product [w * p], [0 <= p <= 30], from any
    value of the [K] neighbourhood of [q/20] and rounding gives a nearest
    integer of [(q - wq * p)/20], clamped. *)
Definition final_ok (K : nat) (qmax : nat) (w : number) (wq : Z) : bool :=
  forallb (fun q =>
    let nb := nbhd K (centre q) in
    forallb (fun p =>
      let v := term w p in
      let q' := (q - wq * p)%Z in
      let a := fastZ (clampZ (halfUp20 q') 0 100) in
      let b := fastZ (clampZ (halfDown20 q') 0 100) in
      forallb (fun t =>
        let r := clamp (Math_round (t - v)%float) 0 100 in
        PrimFloat.Leibniz.eqb r a || PrimFloat.Leibniz.eqb r b) nb)
      (Zrange 0 31))
    (Zrange 0 (S qmax)).

(** [Math_round] and its reference agree on every value within three
    units in the last place of [q/20] and of [- q/20], [0 <= q <= qmax]. *)
Definition round_agrees (qmax : nat) : bool :=
  forallb (fun q =>
    forallb (fun x =>
      PrimFloat.Leibniz.eqb (Math_round x) (Math_round_exact x)
      && PrimFloat.Leibniz.eqb (Math_round (- x)%float)
                               (Math_round_exact (- x)%float))
      (nbhd 3 (centre q)))
    (Zrange 0 (S qmax)).

End Ulp.

(** ** The classifier in closed form

    What the two loops of [classifyNiche] compute, written without the
    loops: per niche, the keywords that occur in the text. *)

Module Closed.

Import JS Scoring.

(** The keywords of [ws] that occur in [text], in dictionary order. *)
Definition hits (text : string) (ws : list string) : list string :=
  filter (includes text) ws.

Definition hitCount (text : string) (ws : list string) : Z :=
  Z.of_nat (List.length (hits text ws)).

(** The entry of a niche in the table of counts, and its entry, if any,
    in the table of evidence. *)
Definition counted (text : string) (kw : string * list string)
  : string * Z :=
  (fst kw, hitCount text (snd kw)).

Definition evidenceEntry (k : string) (h : list string)
  : list (string * list string) :=
  match h with
  | [] => []
  | _ => [(k, firstn 8 h)]
  end.

Definition evidenceOf (text : string) (kw : string * list string)
  : list (string * list string) :=
  evidenceEntry (fst kw) (hits text (snd kw)).

(** The sum of all counts. *)
Definition sumCounts (l : list (string * Z)) : Z :=
  fold_right Z.add 0%Z (map snd l).

(** The confidence for [p] hits of the primary niche out of [t] hits in
    all, as the classifier computes it. *)
Definition confidenceOf (p t : Z) : number :=
  Number_toFixed2 (num_of_Z p / num_of_Z (if (t =? 0)%Z then 1%Z else t))%float.

(** For every [1 <= t <= tmax] and [0 <= p <= t], the confidence is in
    [0, 1], and it is 0 exactly when [p] is 0. *)
Definition confidence_ok (tmax : nat) : bool :=
  forallb (fun t =>
    forallb (fun p =>
      let c := confidenceOf p t in
      (0 <=? c)%float && (c <=? 1)%float
      && (if (p =? 0)%Z then PrimFloat.Leibniz.eqb c 0%float
          else (0 <? c)%float))
      (Ulp.Zrange 0 (S (Z.to_nat t))))
    (Ulp.Zrange 1 tmax).

End Closed.

(** ** The statements of a run, in program order *)

Module Run.

Import Scoring Server.
Local Open Scope string_scope.

Definition allStmts : list Stmt :=
  [ SelectCreator; InsertSnapshot; InsertMetrics; InsertNiche; InsertScore;
    InsertBrandLocal; InsertBrandEcommerce; UpdateStatus; InsertAudit ].

(** The first statement of a run that the fault plan makes fail. *)
Definition firstFault (faults : Stmt -> bool) : option Stmt :=
  find faults allStmts.

(** A table only grew: the old rows are still there, in place, before the
    new ones. *)
Definition grew {R : Type} (old new : list R) : Prop :=
  exists extra, new = (old ++ extra)%list.

(** Every classification (score) stored for the creator was computed
    strictly before [ts]. *)
Definition olderNiche (d : Db) (id ts : string) : Prop :=
  Forall (fun r => String.ltb (nc_computed_at r) ts = true)
    (filter (fun r => String.eqb (nc_creator_id r) id)
            (niche_classification d)).

Definition olderScore (d : Db) (id ts : string) : Prop :=
  Forall (fun r => String.ltb (cs_computed_at r) ts = true)
    (filter (fun r => String.eqb (cs_creator_id r) id) (creator_scores d)).

(** The columns of a creator that no statement of the pipeline writes. *)
Definition identity (c : Creator) : string * option string :=
  (creator_id c, declared_category c).

(** [UPDATE creators SET status='qualified', updated_at=? WHERE id=?]
    on one row of the table. *)
Definition qualify (id ts : string) (c : Creator) : Creator :=
  if String.eqb (creator_id c) id
  then {| creator_id := creator_id c;
          declared_category := declared_category c;
          status := "qualified"; updated_at := ts |}
  else c.

(** A second store: the example store after one run without failure at
    an earlier time. *)
Definition exampleWorldAfterRun : World :=
  fst (runQualification noFault toLowerCaseAscii "2026-02-01T10:00:00.000Z"
         "2026-02-01" "2026-02-01" "2026-02-01T10:00:00.001Z" "c1" "a1"
         exampleWorld).

End Run.

(** ** The authorisation URL (lib/meta.js)

    Strings are sequences of UTF-8 bytes, as in the classifier. *)

Module Meta.

Local Open Scope string_scope.

(** The marks [encodeURIComponent] leaves alone, besides letters and
    digits. *)
Definition uriMark : list ascii :=
  ["-"; "_"; "."; "!"; "~"; "*"; "'"; "("; ")"]%char.

Definition between (lo hi c : ascii) : bool :=
  (nat_of_ascii lo <=? nat_of_ascii c)%nat
  && (nat_of_ascii c <=? nat_of_ascii hi)%nat.

Definition uriUnreserved (c : ascii) : bool :=
  between "A" "Z" c || between "a" "z" c || between "0" "9" c
  || existsb (Ascii.eqb c) uriMark.

Definition hexDigit (n : nat) : ascii :=
  nth n ["0"; "1"; "2"; "3"; "4"; "5"; "6"; "7"; "8"; "9";
         "A"; "B"; "C"; "D"; "E"; "F"]%char "0"%char.

(** A byte as a percent sign and two upper-case hexadecimal digits. *)
Definition percentEncode (c : ascii) : string :=
  String "%" (String (hexDigit (nat_of_ascii c / 16))
                (String (hexDigit (nat_of_ascii c mod 16)) EmptyString)).

Definition encodeByte (c : ascii) : string :=
  if uriUnreserved c then String c EmptyString else percentEncode c.

(** [encodeURIComponent(s)]: every byte of the UTF-8 form that is not an
    unreserved character is percent-encoded. *)
Fixpoint encodeURIComponent (s : string) : string :=
  match s with
  | EmptyString => EmptyString
  | String c s' => encodeByte c ++ encodeURIComponent s'
  end.

(** [process.env.X] is a string or undefined; [encodeURIComponent]
    converts its argument to a string first. *)
Definition envString (v : option string) : string :=
  match v with
  | Some s => s
  | None => "undefined"
  end.

(** [buildAuthUrl({ state, scopes })], with the two environment values
    it reads; [scopes.join(',')] is [String.concat]. *)
Definition buildAuthUrl (clientId redirectUri : option string)
  (state : string) (scopes : list string) : string :=
  let scope := encodeURIComponent (String.concat "," scopes) in
  "https://www.facebook.com/v19.0/dialog/oauth?client_id="
  ++ encodeURIComponent (envString clientId)
  ++ "&redirect_uri=" ++ encodeURIComponent (envString redirectUri)
  ++ "&state=" ++ encodeURIComponent state
  ++ "&response_type=code"
  ++ "&scope=" ++ scope.

(** How many times a character occurs in a string. *)
Fixpoint occurrences (c : ascii) (s : string) : nat :=
  match s with
  | EmptyString => 0
  | String d s' => (if Ascii.eqb d c then 1 else 0) + occurrences c s'
  end.

End Meta.

(** * Properties *)

Import JS Scoring.
Local Open Scope float_scope.

(** ** Checks of the number primitives *)

(** [Math.round] on ties, negative values, the largest value below 1/2
    and a value without fractional bits. *)
Example round_tests :
  Math_round 65.5 = 66 /\ Math_round (-2.5) = -2
  /\ Math_round (-0.3) = neg_zero /\ Math_round 0.49999999999999994 = 0
  /\ Math_round 2.4 = 2 /\ Math_round 1e300 = 1e300.
Proof. vm_compute. repeat split. Qed.

(** [Math_round] against its reference on ties, both signs, subnormal
    and large values, the zeros and the infinities. *)
Example round_agrees_with_exact :
  forallb (fun x => PrimFloat.Leibniz.eqb (Math_round x) (Math_round_exact x))
    [65.5; -2.5; -0.3; 0.49999999999999994; 2.4; 1e300; 0.5; -0.5; 1.5; -1.5;
     0.25; 0.75; -0.75; 4503599627370495.5; 4503599627370496;
     9007199254740991; -4503599627370495.5; 2251799813685247.5; 5e-324;
     -5e-324; 0; -0; 99.5; 100.49999999999999; 0.1; 1e-17;
     5.5511151231257827e-17; -3; -4.5; 1e21; infinity; neg_infinity; 2.5;
     3.5; -3.5; 0.4999999999999999; 1.4999999999999998; 9.4999999999999982;
     52.5; 56.5; 60.5]
  = true.
Proof. vm_compute. reflexivity. Qed.

(** The two readings of [Math.round] agree around every multiple of
    1/20 up to 100, ties included. *)
Example round_agrees_near_twentieths : Ulp.round_agrees 2000 = true.
Proof. vm_cast_no_check (eq_refl true). Qed.

(** [Number(x.toFixed(2))]: 1.005 is below 1.005 in binary64 and prints
    as 1.00, 0.125 is a tie and prints as 0.13. *)
Example fixed_tests :
  Number_toFixed2 (1/3) = 0.33 /\ Number_toFixed2 (2/3) = 0.67
  /\ Number_toFixed2 0.125 = 0.13 /\ Number_toFixed2 1 = 1
  /\ Number_toFixed2 (- 0.001) = neg_zero /\ Number_toFixed2 1.005 = 1
  /\ Number_toFixed2 123456789.125 = 123456789.13
  /\ Number_toFixed2 (-2.345) = -2.35.
Proof. vm_compute. repeat split. Qed.

(** ** Order facts on binary64 values

    The comparisons of [SpecFloat] are a lexicographic order on sign,
    exponent and mantissa; the facts below are read off that order and
    carried to primitive floats by the specification of [<=?] and [<?]. *)

Ltac sf_destruct x := destruct x as [[]|[]| |[] ? ?].

Ltac sf_order_close :=
  cbn; try congruence; try reflexivity;
  repeat match goal with
  | |- context [PosDef.Pos.compare_cont Eq ?m1 ?m2] =>
      change (PosDef.Pos.compare_cont Eq m1 m2) with (Pos.compare m1 m2)
  end;
  repeat match goal with
  | |- context [(?x ?= ?y)%Z] => destruct (Z.compare_spec x y)
  | |- context [(?x ?= ?y)%positive] => destruct (Pos.compare_spec x y)
  end;
  cbn; try congruence; try reflexivity; intros; exfalso; lia.

Lemma SFleb_trans a b c :
  SFleb a b = true -> SFleb b c = true -> SFleb a c = true.
Proof.
  unfold SFleb, SFcompare.
  sf_destruct a; sf_destruct b; sf_destruct c; sf_order_close.
Qed.

Lemma SFltb_trans a b c :
  SFltb a b = true -> SFltb b c = true -> SFltb a c = true.
Proof.
  unfold SFltb, SFcompare.
  sf_destruct a; sf_destruct b; sf_destruct c; sf_order_close.
Qed.

(** Two comparable values are ordered one way or the other: if [a <= b]
    fails while [b] and [a] are both comparable to something, then
    [b < a]. *)
Lemma SFleb_false_ltb a b c :
  SFleb a b = false -> SFleb c b = true -> SFleb a a = true ->
  SFltb b a = true.
Proof.
  unfold SFltb, SFleb, SFcompare.
  sf_destruct a; sf_destruct b; sf_destruct c; sf_order_close.
Qed.

Lemma leb_trans (a b c : number) :
  (a <=? b) = true -> (b <=? c) = true -> (a <=? c) = true.
Proof. rewrite !leb_spec. apply SFleb_trans. Qed.

Lemma ltb_trans (a b c : number) :
  (a <? b) = true -> (b <? c) = true -> (a <? c) = true.
Proof. rewrite !ltb_spec. apply SFltb_trans. Qed.

Lemma leb_false_ltb (a b c : number) :
  (a <=? b) = false -> (c <=? b) = true -> (a <=? a) = true ->
  (b <? a) = true.
Proof. rewrite !leb_spec, ltb_spec. apply SFleb_false_ltb. Qed.

(** A threshold test [er >= c] that holds at [er1] holds at every larger
    argument. *)
Lemma geb_mono (c er1 er2 : number) :
  (er1 <=? er2) = true -> geb er1 c = true -> geb er2 c = true.
Proof. unfold geb. intros H12 H1. exact (leb_trans _ _ _ H1 H12). Qed.

(** ** The engagement ladder *)

Lemma computeErScore_range (er : number) :
  In (computeErScore er) [20; 45; 70; 100].
Proof.
  unfold computeErScore.
  destruct (geb er 0.06); [ cbn; tauto |].
  destruct (geb er 0.03); [ cbn; tauto |].
  destruct (geb er 0.015); cbn; tauto.
Qed.

(** C7. For engagement rates [er1 <= er2] the ER score of [er1] is at most
    the ER score of [er2], and for every engagement rate [er] (NaN
    included) the ER score is one of 20, 45, 70, 100. *)
Theorem computeErScore_monotone_range (er1 er2 er : number)
  (Hle : (er1 <=? er2) = true) :
  (computeErScore er1 <=? computeErScore er2) = true
  /\ In (computeErScore er) [20; 45; 70; 100].
Proof.
  split; [| apply computeErScore_range].
  unfold computeErScore.
  destruct (geb er1 0.06) eqn:A1.
  { rewrite (geb_mono _ _ _ Hle A1). reflexivity. }
  destruct (geb er1 0.03) eqn:B1.
  { rewrite (geb_mono _ _ _ Hle B1). destruct (geb er2 0.06); reflexivity. }
  destruct (geb er1 0.015) eqn:C1.
  { rewrite (geb_mono _ _ _ Hle C1).
    destruct (geb er2 0.06); [reflexivity|].
    destruct (geb er2 0.03); reflexivity. }
  destruct (geb er2 0.06); [reflexivity|].
  destruct (geb er2 0.03); [reflexivity|].
  destruct (geb er2 0.015); reflexivity.
Qed.

Lemma computeErScore_monotone_range_witness :
  (0.01 <=? 0.05) = true
  /\ (computeErScore 0.01 <=? computeErScore 0.05) = true
  /\ In (computeErScore nan) [20; 45; 70; 100].
Proof.
  split; [reflexivity |].
  apply (computeErScore_monotone_range 0.01 0.05 nan). reflexivity.
Defined.

(** ** The fraud heuristic *)

(** C5. For every engagement rate, follower count and 30-day content
    count, the fraud penalty is the sum of one +10 per triggered rule
    (followers > 20000 and er < 0.008; followers > 50000 and
    contentCount30d < 4; er > 0.12 and contentCount30d < 6), and it lies
    in [0, 30]. *)
Theorem computeFraudPenalty_sum (er followers contentCount30d : number) :
  let r1 := gtb followers 20000 && (er <? 0.008) in
  let r2 := gtb followers 50000 && (contentCount30d <? 4) in
  let r3 := gtb er 0.12 && (contentCount30d <? 6) in
  let p := computeFraudPenalty er followers contentCount30d in
  p = num_of_Z (10 * Z.b2z r1 + 10 * Z.b2z r2 + 10 * Z.b2z r3)
  /\ (0 <=? p) = true /\ (p <=? 30) = true.
Proof.
  unfold computeFraudPenalty, fraudRule1, fraudRule2, fraudRule3.
  destruct (gtb followers 20000 && (er <? 0.008));
  destruct (gtb followers 50000 && (contentCount30d <? 4));
  destruct (gtb er 0.12 && (contentCount30d <? 6));
  vm_compute; repeat split.
Qed.

(** The first and the third rule exclude each other: no number is below
    0.008 and above 0.12. *)
Lemma fraudRule1_rule3_exclusive (er followers contentCount30d : number) :
  fraudRule1 er followers && fraudRule3 er contentCount30d = false.
Proof.
  unfold fraudRule1, fraudRule3, gtb.
  destruct (er <? 0.008) eqn:Hlow; [| now rewrite andb_false_r].
  destruct (0.12 <? er) eqn:Hhigh; [| now rewrite andb_false_r].
  pose proof (ltb_trans _ _ _ Hhigh Hlow) as Habs.
  vm_compute in Habs. discriminate.
Qed.

(** C9. For every input the fraud penalty is at most 20: the rule on
    er < 0.008 and the rule on er > 0.12 never fire together, so the three
    increments are never all added. *)
Theorem computeFraudPenalty_at_most_20 (er followers contentCount30d : number) :
  (computeFraudPenalty er followers contentCount30d <=? 20) = true
  /\ fraudRule1 er followers && fraudRule3 er contentCount30d = false
  /\ computeFraudPenalty er followers contentCount30d <> 30.
Proof.
  pose proof (fraudRule1_rule3_exclusive er followers contentCount30d) as Hex.
  split; [| split; [exact Hex |]];
  unfold computeFraudPenalty;
  destruct (fraudRule1 er followers);
  destruct (fraudRule3 er contentCount30d); try discriminate Hex;
  destruct (fraudRule2 followers contentCount30d);
  vm_compute; try reflexivity; intros Habs;
  apply (f_equal Prim2SF) in Habs; vm_compute in Habs; discriminate.
Qed.

(** ** The grade *)

(** C6. Every total score [t] is graded A when t >= 80, B when
    60 <= t < 80, and C otherwise; at the boundaries grade(79) = B,
    grade(80) = A, grade(59) = C, grade(60) = B. *)
Theorem grade_spec :
  (forall t : number,
     grade t = if geb t 80 then "A"%string
               else if geb t 60 && (t <? 80) then "B"%string
               else "C"%string)
  /\ grade 79 = "B"%string /\ grade 80 = "A"%string
  /\ grade 59 = "C"%string /\ grade 60 = "B"%string.
Proof.
  split; [| vm_compute; repeat split].
  intros t. unfold grade, geb.
  destruct (80 <=? t) eqn:H80; [reflexivity |].
  destruct (60 <=? t) eqn:H60; [| reflexivity].
  rewrite (leb_false_ltb 80 t 60 H80 H60 eq_refl). reflexivity.
Qed.

(** ** The total score *)

Section TotalScore.

Import Exact Ulp.
Local Open Scope Z_scope.

Lemma fastZ_num_of_Z (n : Z) : 0 <= n < 2 ^ 63 -> fastZ n = num_of_Z n.
Proof.
  intros Hn. unfold fastZ, num_of_Z.
  destruct n; [reflexivity | reflexivity | lia].
Qed.

Lemma Zrange_In (lo : Z) (len : nat) (i : Z) :
  lo <= i < lo + Z.of_nat len -> In i (Zrange lo len).
Proof.
  intros Hi. unfold Zrange. apply in_map_iff.
  exists (Z.to_nat (i - lo)). split; [lia |].
  apply in_seq. lia.
Qed.

Lemma mem_In (t : number) (l : list number) : mem t l = true <-> In t l.
Proof.
  unfold mem. rewrite existsb_exists. split.
  - intros [x [Hx Heq]]. apply Leibniz.eqb_spec in Heq. now subst.
  - intros Hin. exists t. split; [assumption |]. now apply Leibniz.eqb_spec.
Qed.

Lemma first_ok_sound K w0 wq0 w1 wq1 :
  first_ok K w0 wq0 w1 wq1 = true ->
  forall e r, 0 <= e <= 100 -> 0 <= r <= 100 ->
  near K (wq0 * e + wq1 * r) (term w0 e + term w1 r)%float = true.
Proof.
  unfold first_ok. intros Hok e r He Hr.
  rewrite forallb_forall in Hok.
  specialize (Hok e (Zrange_In 0 101 e ltac:(lia))). cbv zeta in Hok.
  rewrite forallb_forall in Hok.
  exact (Hok r (Zrange_In 0 101 r ltac:(lia))).
Qed.

Lemma stage_ok_sound K K' qmax w wq :
  stage_ok K K' qmax w wq = true ->
  forall q i t, 0 <= q <= Z.of_nat qmax -> 0 <= i <= 100 ->
  near K q t = true ->
  near K' (q + wq * i) (t + term w i)%float = true.
Proof.
  unfold stage_ok, near. intros Hok q i t Hq Hi Ht.
  rewrite forallb_forall in Hok.
  specialize (Hok q (Zrange_In 0 (S qmax) q ltac:(lia))). cbv zeta in Hok.
  rewrite forallb_forall in Hok.
  specialize (Hok i (Zrange_In 0 101 i ltac:(lia))). cbv zeta in Hok.
  rewrite forallb_forall in Hok.
  apply Hok. now apply mem_In.
Qed.

Lemma final_ok_sound K qmax w wq :
  final_ok K qmax w wq = true ->
  forall q p t, 0 <= q <= Z.of_nat qmax -> 0 <= p <= 30 ->
  near K q t = true ->
  roundsTo (t - term w p)%float (q - wq * p) = true.
Proof.
  unfold final_ok, near, roundsTo. intros Hok q p t Hq Hp Ht.
  rewrite forallb_forall in Hok.
  specialize (Hok q (Zrange_In 0 (S qmax) q ltac:(lia))). cbv zeta in Hok.
  rewrite forallb_forall in Hok.
  specialize (Hok p (Zrange_In 0 31 p ltac:(lia))). cbv zeta in Hok.
  rewrite forallb_forall in Hok.
  apply Hok. now apply mem_In.
Qed.

Lemma clampZ_range (k : Z) : 0 <= clampZ k 0 100 <= 100.
Proof. unfold clampZ. lia. Qed.

Lemma halfUp20_nearest (q : Z) : nearest20 q (halfUp20 q).
Proof.
  unfold nearest20, halfUp20.
  pose proof (Z.div_mod (q + 10) 20 ltac:(lia)) as Hd.
  pose proof (Z.mod_pos_bound (q + 10) 20 ltac:(lia)) as Hm. lia.
Qed.

Lemma halfDown20_nearest (q : Z) : nearest20 q (halfDown20 q).
Proof.
  unfold nearest20, halfDown20.
  pose proof (Z.div_mod (q + 9) 20 ltac:(lia)) as Hd.
  pose proof (Z.mod_pos_bound (q + 9) 20 ltac:(lia)) as Hm. lia.
Qed.

Lemma roundsTo_sound (t : number) (q : Z) :
  roundsTo t q = true ->
  exists k, clamp (Math_round t) 0 100 = num_of_Z (clampZ k 0 100)
            /\ nearest20 q k.
Proof.
  unfold roundsTo. intros H. apply orb_true_iff in H.
  destruct H as [H | H]; apply Leibniz.eqb_spec in H.
  - exists (halfUp20 q). split; [| apply halfUp20_nearest].
    rewrite H. apply fastZ_num_of_Z.
    pose proof (clampZ_range (halfUp20 q)). lia.
  - exists (halfDown20 q). split; [| apply halfDown20_nearest].
    rewrite H. apply fastZ_num_of_Z.
    pose proof (clampZ_range (halfDown20 q)). lia.
Qed.

(** The evaluated checks: with reach, the partial sums stay within 1, 2
    and 3 units in the last place; without reach, within 1 and 2. *)
Lemma withReach_first : first_ok 1 0.30 6 0.25 5 = true.
Proof. vm_cast_no_check (eq_refl true). Qed.
Lemma withReach_second : stage_ok 1 2 1100 0.20 4 = true.
Proof. vm_cast_no_check (eq_refl true). Qed.
Lemma withReach_third : stage_ok 2 3 1500 0.15 3 = true.
Proof. vm_cast_no_check (eq_refl true). Qed.
Lemma withReach_final : final_ok 3 1800 0.10 2 = true.
Proof. vm_cast_no_check (eq_refl true). Qed.
Lemma noReach_first : first_ok 1 0.40 8 0.25 5 = true.
Proof. vm_cast_no_check (eq_refl true). Qed.
Lemma noReach_second : stage_ok 1 2 1300 0.20 4 = true.
Proof. vm_cast_no_check (eq_refl true). Qed.
Lemma noReach_final : final_ok 2 1700 0.15 3 = true.
Proof. vm_cast_no_check (eq_refl true). Qed.

Lemma weightedWithReach_rounds (e r c n p : Z) :
  0 <= e <= 100 -> 0 <= r <= 100 -> 0 <= c <= 100 -> 0 <= n <= 100 ->
  0 <= p <= 30 ->
  exists k,
    clamp (Math_round (weightedWithReach (num_of_Z e) (num_of_Z r)
             (num_of_Z c) (num_of_Z n) (num_of_Z p))) 0 100
    = num_of_Z (clampZ k 0 100)
    /\ nearest20 (sumWithReach20 e r c n p) k.
Proof.
  intros He Hr Hc Hn Hp.
  rewrite <- !fastZ_num_of_Z by lia.
  apply roundsTo_sound.
  pose proof (first_ok_sound _ _ _ _ _ withReach_first e r He Hr) as H1.
  assert (H2 := stage_ok_sound _ _ _ _ _ withReach_second (6 * e + 5 * r) c _
                  ltac:(lia) Hc H1).
  assert (H3 := stage_ok_sound _ _ _ _ _ withReach_third
                  (6 * e + 5 * r + 4 * c) n _ ltac:(lia) Hn H2).
  assert (H4 := final_ok_sound _ _ _ _ withReach_final
                  (6 * e + 5 * r + 4 * c + 3 * n) p _ ltac:(lia) Hp H3).
  unfold sumWithReach20, weightedWithReach. exact H4.
Qed.

Lemma weightedNoReach_rounds (e c n p : Z) :
  0 <= e <= 100 -> 0 <= c <= 100 -> 0 <= n <= 100 -> 0 <= p <= 30 ->
  exists k,
    clamp (Math_round (weightedNoReach (num_of_Z e) (num_of_Z c)
             (num_of_Z n) (num_of_Z p))) 0 100
    = num_of_Z (clampZ k 0 100)
    /\ nearest20 (sumNoReach20 e c n p) k.
Proof.
  intros He Hc Hn Hp.
  rewrite <- !fastZ_num_of_Z by lia.
  apply roundsTo_sound.
  pose proof (first_ok_sound _ _ _ _ _ noReach_first e c He Hc) as H1.
  assert (H2 := stage_ok_sound _ _ _ _ _ noReach_second (8 * e + 5 * c) n _
                  ltac:(lia) Hn H1).
  assert (H3 := final_ok_sound _ _ _ _ noReach_final
                  (8 * e + 5 * c + 4 * n) p _ ltac:(lia) Hp H2).
  unfold sumNoReach20, weightedNoReach. exact H3.
Qed.

(** C4. For sub-scores that are integers in 0..100 (the reach score
    present or not, reach available or not) and a fraud penalty that is an
    integer in 0..30, [computeTotalScore] returns an integer in [0, 100]:
    the weighted sum 0.30 ER + 0.25 Reach + 0.20 Consistency + 0.15 Niche
    - 0.10 Penalty when reach is available and the reach score is a number,
    0.40 ER + 0.25 Consistency + 0.20 Niche - 0.15 Penalty otherwise,
    rounded to a nearest integer and clamped to [0, 100]. *)
Theorem computeTotalScore_integer_nearest
  (e c n p : Z) (rs : option Z) (ra : bool)
  (He : 0 <= e <= 100) (Hr : forall r, rs = Some r -> 0 <= r <= 100)
  (Hc : 0 <= c <= 100) (Hn : 0 <= n <= 100) (Hp : 0 <= p <= 30) :
  let total :=
    computeTotalScore
      {| erScore := num_of_Z e; reachScore := option_map num_of_Z rs;
         consistencyScore := num_of_Z c; nicheScore := num_of_Z n;
         fraudPenalty := num_of_Z p; reachAvailable := ra |} in
  let q := match ra, rs with
           | true, Some r => sumWithReach20 e r c n p
           | _, _ => sumNoReach20 e c n p
           end in
  exists k t, total = num_of_Z t /\ 0 <= t <= 100
              /\ t = clampZ k 0 100 /\ nearest20 q k.
Proof.
  cbv zeta. unfold computeTotalScore. cbn [reachAvailable reachScore erScore
    consistencyScore nicheScore fraudPenalty].
  assert (Hno : exists k t,
            clamp (Math_round (weightedNoReach (num_of_Z e) (num_of_Z c)
                     (num_of_Z n) (num_of_Z p))) 0 100 = num_of_Z t
            /\ 0 <= t <= 100 /\ t = clampZ k 0 100
            /\ nearest20 (sumNoReach20 e c n p) k).
  { destruct (weightedNoReach_rounds e c n p He Hc Hn Hp) as [k [Hk Hq]].
    exists k, (clampZ k 0 100).
    repeat split; try assumption; apply clampZ_range. }
  destruct ra; [| destruct rs; exact Hno].
  destruct rs as [r |]; [| exact Hno]. cbn [option_map].
  destruct (weightedWithReach_rounds e r c n p He (Hr r eq_refl) Hc Hn Hp)
    as [k [Hk Hq]].
  exists k, (clampZ k 0 100).
  repeat split; try assumption; apply clampZ_range.
Qed.

Lemma computeTotalScore_integer_nearest_witness :
  exists k t,
    computeTotalScore
      {| erScore := num_of_Z 70; reachScore := option_map num_of_Z (Some 0);
         consistencyScore := num_of_Z 70; nicheScore := num_of_Z 100;
         fraudPenalty := num_of_Z 0; reachAvailable := false |} = num_of_Z t
    /\ 0 <= t <= 100 /\ t = clampZ k 0 100
    /\ nearest20 (sumNoReach20 70 70 100 0) k.
Proof.
  apply (computeTotalScore_integer_nearest 70 70 100 0 (Some 0) false);
    try lia.
  intros r Hr. injection Hr as <-. lia.
Defined.

(** Where the exact sum is halfway between two integers the binary64 sum
    can fall on either side: 0.20 * 1 + 0.15 * 62 is 9.499999999999998 in
    binary64 and rounds to 9, while 0.25 * 2 is exactly 0.5 and rounds
    to 1. Both are nearest integers of the exact sums 9.5 and 0.5. *)
Example computeTotalScore_ties :
  computeTotalScore
    {| erScore := 0; reachScore := Some 0%float; consistencyScore := 1;
       nicheScore := 62; fraudPenalty := 0; reachAvailable := true |} = 9%float
  /\ computeTotalScore
    {| erScore := 0; reachScore := Some 2%float; consistencyScore := 0;
       nicheScore := 0; fraudPenalty := 0; reachAvailable := true |} = 1%float.
Proof. vm_compute. split; reflexivity. Qed.

End TotalScore.

(** ** The niche classifier *)

Section ClassifierFacts.

Local Open Scope string_scope.

Lemma visitWord_nohit text k t w :
  includes text w = false -> visitWord text k t w = t.
Proof. unfold visitWord. now intros ->. Qed.

Lemma visitWords_nohit text k ws : forall t,
  forallb (fun w => negb (includes text w)) ws = true ->
  fold_left (visitWord text k) ws t = t.
Proof.
  induction ws as [| w ws IH]; intros t H; [reflexivity |].
  cbn in H. apply andb_true_iff in H. destruct H as [Hw Hws].
  apply negb_true_iff in Hw. cbn [fold_left].
  rewrite (visitWord_nohit _ _ _ _ Hw). now apply IH.
Qed.

Lemma visitNiches_nohit text (d : list (string * list string)) : forall t,
  forallb (fun kw => forallb (fun w => negb (includes text w)) (snd kw)) d
  = true ->
  fold_left (visitNiche text) d t = t.
Proof.
  induction d as [| kw d IH]; intros t H; [reflexivity |].
  cbn in H. apply andb_true_iff in H. destruct H as [Hkw Hd].
  cbn [fold_left]. unfold visitNiche at 2.
  rewrite (visitWords_nohit _ _ _ _ Hkw). now apply IH.
Qed.

Lemma tally_nohit text : noKeyword text = true -> tally text = initialTally.
Proof. intros H. unfold tally. now apply visitNiches_nohit. Qed.

(** C3. When no keyword of any niche occurs in the lower-cased text
    (bio, a space, the declared category), [classifyNiche] returns the
    primary niche general whatever the declared category is, no secondary
    niche, confidence 0 and no evidence; the sum of hits is zero and the
    denominator used is 1, so nothing is divided by zero. *)
Theorem classifyNiche_no_keyword (toLowerCase : string -> string)
  (bio declared : string)
  (Hno : noKeyword (toLowerCase (bio ++ " " ++ declared)) = true) :
  classifyNiche toLowerCase bio declared
  = Some {| primary_niche := "general"; secondary_niches := [];
            confidence := 0%float; evidence_keywords := [] |}
  /\ totalHits (sortRanked (scores (tally (toLowerCase (bio ++ " " ++ declared)))))
     = 1%Z.
Proof.
  unfold classifyNiche. rewrite (tally_nohit _ Hno). split.
  - destruct (negb (String.eqb declared "")); reflexivity.
  - reflexivity.
Qed.

Lemma classifyNiche_no_keyword_witness :
  classifyNiche toLowerCaseAscii "" ""
  = Some {| primary_niche := "general"; secondary_niches := [];
            confidence := 0%float; evidence_keywords := [] |}
  /\ totalHits (sortRanked (scores (tally (toLowerCaseAscii ("" ++ " " ++ "")))))
     = 1%Z.
Proof.
  apply (classifyNiche_no_keyword toLowerCaseAscii "" ""). reflexivity.
Defined.

(** The fallback does not look at the declared category: a declared text
    without keywords is classified as the empty one is. *)
Example classifyNiche_declared_ignored :
  classifyNiche toLowerCaseAscii "" "Pintura"
  = classifyNiche toLowerCaseAscii "" "".
Proof. reflexivity. Qed.

Example classifyNiche_sushi :
  classifyNiche toLowerCaseAscii "" "Sushi lover"
  = Some {| primary_niche := "food"; secondary_niches := [];
            confidence := 1%float; evidence_keywords := ["sushi"] |}.
Proof. reflexivity. Qed.

(** The table of counts always has the seven niches of [DICTS], so the
    two best ranked exist and the classifier returns. *)
Lemma setProp_keys {V : Type} (o : list (string * V)) k v :
  In k (map fst o) -> map fst (setProp o k v) = map fst o.
Proof.
  induction o as [| [k' v'] o IH]; cbn; intros H; [contradiction |].
  destruct (String.eqb_spec k' k) as [-> | Hne]; [reflexivity |].
  cbn. rewrite IH; [reflexivity |]. destruct H; [contradiction | assumption].
Qed.

Lemma visitWord_keys text k t w :
  In k (map fst (scores t)) ->
  map fst (scores (visitWord text k t w)) = map fst (scores t).
Proof.
  intros Hk. unfold visitWord. destruct (includes text w); [| reflexivity].
  cbn [scores]. now apply setProp_keys.
Qed.

Lemma visitWords_keys text k ws : forall t,
  In k (map fst (scores t)) ->
  map fst (scores (fold_left (visitWord text k) ws t)) = map fst (scores t).
Proof.
  induction ws as [| w ws IH]; intros t Hk; [reflexivity |].
  cbn [fold_left]. rewrite IH; rewrite visitWord_keys; auto.
Qed.

Lemma visitNiches_keys text (d : list (string * list string)) : forall t,
  incl (map fst d) (map fst (scores t)) ->
  map fst (scores (fold_left (visitNiche text) d t)) = map fst (scores t).
Proof.
  induction d as [| kw d IH]; intros t Hd; [reflexivity |].
  assert (Hk : In (fst kw) (map fst (scores t))) by (apply Hd; now left).
  cbn [fold_left]. unfold visitNiche at 2.
  rewrite IH; rewrite visitWords_keys; auto.
  intros k Hin. apply Hd. now right.
Qed.

Lemma tally_keys text : map fst (scores (tally text)) = map fst DICTS.
Proof.
  unfold tally. rewrite visitNiches_keys; [reflexivity |].
  cbn. intros k Hk. exact Hk.
Qed.

Lemma insertRanked_length x l :
  List.length (insertRanked x l) = S (List.length l).
Proof.
  induction l as [| y l IH]; [reflexivity |]. cbn.
  destruct (snd x <? snd y)%Z; cbn; [now rewrite IH | reflexivity].
Qed.

Lemma sortRanked_length l : List.length (sortRanked l) = List.length l.
Proof.
  unfold sortRanked. induction l as [| x l IH]; [reflexivity |].
  cbn [fold_right List.length]. now rewrite insertRanked_length, IH.
Qed.

Lemma classifyNiche_total (toLowerCase : string -> string)
  (bio declared : string) :
  exists r, classifyNiche toLowerCase bio declared = Some r.
Proof.
  unfold classifyNiche.
  set (text := toLowerCase (bio ++ " " ++ declared)).
  pose proof (sortRanked_length (scores (tally text))) as Hlen.
  rewrite <- (length_map fst (scores (tally text))), tally_keys in Hlen.
  destruct (sortRanked (scores (tally text))) as [| [p ps] [| [q qs] l]];
    try discriminate Hlen.
  eexists. reflexivity.
Qed.

End ClassifierFacts.

(** ** The brand-target mapper *)

Section BrandFacts.

Local Open Scope string_scope.

(** Every tag the classifier can return has an entry with two non-empty
    lists. *)
Lemma buildBrandTargets_classifier_tags (niche : string) :
  In niche (map fst DICTS ++ ["general"]) ->
  exists l e, buildBrandTargets niche
              = {| targets_local := Some l; targets_ecommerce := Some e |}
              /\ l <> [] /\ e <> [].
Proof.
  cbn. intros H.
  repeat (destruct H as [<- | H];
          [ eexists; eexists; split; [reflexivity | split; discriminate] |]).
  contradiction.
Qed.

(** A tag that is neither a key of the table nor a name defined by
    [Object.prototype] gets the general entry. *)
Lemma buildBrandTargets_fallback (niche : string) :
  getProp BRAND_MAP niche = None ->
  existsb (String.eqb niche) objectPrototypeKeys = false ->
  buildBrandTargets niche
  = {| targets_local := Some (local BRAND_MAP_general);
       targets_ecommerce := Some (ecommerce BRAND_MAP_general) |}.
Proof.
  intros Hown Hproto. unfold buildBrandTargets, lookupBrandMap.
  rewrite Hown, Hproto. reflexivity.
Qed.

(** C8. On a tag that is not in the table but names a property every
    object inherits (here constructor), the look-up finds the inherited
    value, the fallback to general is not taken, and both lists come out
    undefined: such unmapped tags do not fall back to the general
    entry. *)
Theorem buildBrandTargets_inherited_name :
  getProp BRAND_MAP "constructor" = None
  /\ lookupBrandMap "constructor" = Inherited "constructor"
  /\ buildBrandTargets "constructor"
     = {| targets_local := None; targets_ecommerce := None |}
  /\ buildBrandTargets "constructor" <> buildBrandTargets "general".
Proof. repeat split; try reflexivity. discriminate. Qed.

End BrandFacts.

(** ** The end-to-end example *)

(** C2. With followers = 1000, likes = 50, comments = 5,
    contentCount30d = 8, niche confidence 1.0 and reach unavailable, the
    engagement rate is 0.055, the ER score 70, the consistency score 70,
    the niche score 100, the fraud penalty 0, the weighted sum 65.5, which
    rounds half up to the total 66, graded B. *)
Theorem end_to_end_example :
  let followers := 1000 in
  let likes := 50 in
  let comments := 5 in
  let contentCount30d := 8 in
  let er := (likes + comments) / followers in
  let erScore := computeErScore er in
  let consistencyScore := computeConsistencyScore (contentCount30d / 4) in
  let nicheScore := computeNicheScore 1.0 in
  let reachAvailable := false in
  let reachScore := match computeReachScore reachAvailable 0 with
                    | Some r => r
                    | None => 0
                    end in
  let fraudPenalty := computeFraudPenalty er followers contentCount30d in
  let total :=
    computeTotalScore
      {| Scoring.erScore := erScore; Scoring.reachScore := Some reachScore;
         Scoring.consistencyScore := consistencyScore;
         Scoring.nicheScore := nicheScore;
         Scoring.fraudPenalty := fraudPenalty;
         Scoring.reachAvailable := reachAvailable |} in
  er = 0.055 /\ erScore = 70 /\ consistencyScore = 70 /\ nicheScore = 100
  /\ computeReachScore reachAvailable 0 = None /\ fraudPenalty = 0
  /\ weightedNoReach erScore consistencyScore nicheScore fraudPenalty = 65.5
  /\ Math_round 65.5 = 66 /\ total = 66 /\ grade total = "B"%string.
Proof. vm_compute. repeat split. Qed.

(** * Further properties of the scoring functions *)

Section Ladders.

(** More order facts, read off the specification of the comparisons. *)
Lemma SFltb_leb a b : SFltb a b = true -> SFleb a b = true.
Proof.
  unfold SFltb, SFleb. destruct (SFcompare a b) as [[]|]; congruence.
Qed.

Lemma SFleb_refl_l a b : SFleb a b = true -> SFleb a a = true.
Proof.
  unfold SFleb, SFcompare.
  sf_destruct a; sf_destruct b; sf_order_close.
Qed.

Lemma SFleb_refl_r a b : SFleb a b = true -> SFleb b b = true.
Proof.
  unfold SFleb, SFcompare.
  sf_destruct a; sf_destruct b; sf_order_close.
Qed.

Lemma SFltb_false_leb a b :
  SFltb a b = false -> SFleb a a = true -> SFleb b b = true ->
  SFleb b a = true.
Proof.
  unfold SFltb, SFleb, SFcompare.
  sf_destruct a; sf_destruct b; sf_order_close.
Qed.

Lemma SFleb_refl_not_nan a : SFleb a a = true <-> a <> S754_nan.
Proof.
  unfold SFleb, SFcompare. split.
  - intros H ->. discriminate H.
  - intros H. destruct a as [[]|[]| |[] m e];
      try congruence; try reflexivity;
      rewrite Z.compare_refl;
      change (PosDef.Pos.compare_cont Eq m m) with (Pos.compare m m);
      rewrite Pos.compare_refl; reflexivity.
Qed.

Lemma ltb_leb (a b : number) : (a <? b) = true -> (a <=? b) = true.
Proof. rewrite ltb_spec, leb_spec. apply SFltb_leb. Qed.

Lemma leb_refl_l (a b : number) : (a <=? b) = true -> (a <=? a) = true.
Proof. rewrite !leb_spec. apply SFleb_refl_l. Qed.

Lemma leb_refl_r (a b : number) : (a <=? b) = true -> (b <=? b) = true.
Proof. rewrite !leb_spec. apply SFleb_refl_r. Qed.

Lemma ltb_false_leb (a b : number) :
  (a <? b) = false -> (a <=? a) = true -> (b <=? b) = true ->
  (b <=? a) = true.
Proof. rewrite ltb_spec, !leb_spec. apply SFltb_false_leb. Qed.

(** A number is NaN exactly when it is not below or equal to itself. *)
Lemma is_nan_leb (a : number) : is_nan a = negb (a <=? a).
Proof.
  unfold is_nan. rewrite eqb_spec, leb_spec. unfold SFeqb, SFleb.
  destruct (Prim2SF a) as [[]|[]| |[] m e]; cbn; try reflexivity;
    rewrite Z.compare_refl;
    change (PosDef.Pos.compare_cont Eq m m) with (Pos.compare m m);
    rewrite Pos.compare_refl; reflexivity.
Qed.

Lemma is_nan_spec (a : number) : is_nan a = true <-> Prim2SF a = S754_nan.
Proof.
  rewrite is_nan_leb, negb_true_iff, leb_spec.
  pose proof (SFleb_refl_not_nan (Prim2SF a)) as [H1 H2].
  split.
  - intros E. destruct (Prim2SF a); try reflexivity;
      rewrite H2 in E by discriminate; discriminate E.
  - intros ->. reflexivity.
Qed.

(** A four-step ladder with increasing thresholds and increasing values
    is monotone. *)
Lemma ladder_mono (c1 c2 c3 v1 v2 v3 v4 x y : number) :
  (v4 <=? v3) = true -> (v3 <=? v2) = true -> (v2 <=? v1) = true ->
  (x <=? y) = true ->
  let f z := if geb z c1 then v1 else if geb z c2 then v2
             else if geb z c3 then v3 else v4 in
  (f x <=? f y) = true.
Proof.
  intros H43 H32 H21 Hxy. cbv beta zeta.
  assert (H31 := leb_trans _ _ _ H32 H21).
  assert (H42 := leb_trans _ _ _ H43 H32).
  assert (H41 := leb_trans _ _ _ H43 H31).
  assert (R1 := leb_refl_r _ _ H21). assert (R2 := leb_refl_l _ _ H21).
  assert (R3 := leb_refl_l _ _ H32). assert (R4 := leb_refl_l _ _ H43).
  destruct (geb x c1) eqn:A1.
  { rewrite (geb_mono _ _ _ Hxy A1). exact R1. }
  destruct (geb x c2) eqn:A2.
  { rewrite (geb_mono _ _ _ Hxy A2). destruct (geb y c1); [exact H21 | exact R2]. }
  destruct (geb x c3) eqn:A3.
  { rewrite (geb_mono _ _ _ Hxy A3).
    destruct (geb y c1); [exact H31 |].
    destruct (geb y c2); [exact H32 | exact R3]. }
  destruct (geb y c1); [exact H41 |].
  destruct (geb y c2); [exact H42 |].
  destruct (geb y c3); [exact H43 | exact R4].
Qed.

(** X1. The consistency score does not decrease when the number of
    contents per week grows, and it is always one of 20, 40, 70, 100; a
    NaN input gets 20. *)
Theorem computeConsistencyScore_monotone_range (x y z : number)
  (Hxy : (x <=? y) = true) :
  (computeConsistencyScore x <=? computeConsistencyScore y) = true
  /\ In (computeConsistencyScore z) [20; 40; 70; 100]
  /\ computeConsistencyScore nan = 20.
Proof.
  split; [| split; [| reflexivity]].
  - apply (ladder_mono 4 2 1 100 70 40 20 x y); try reflexivity. exact Hxy.
  - unfold computeConsistencyScore.
    destruct (geb z 4); [cbn; tauto |].
    destruct (geb z 2); [cbn; tauto |].
    destruct (geb z 1); cbn; tauto.
Qed.

Lemma computeConsistencyScore_monotone_range_witness :
  (computeConsistencyScore 1.75 <=? computeConsistencyScore 2) = true
  /\ In (computeConsistencyScore 0.5) [20; 40; 70; 100]
  /\ computeConsistencyScore nan = 20.
Proof.
  apply (computeConsistencyScore_monotone_range 1.75 2 0.5). reflexivity.
Defined.

(** X2. The niche score does not decrease when the confidence grows, and
    it is always one of 35, 55, 75, 100. *)
Theorem computeNicheScore_monotone_range (x y z : number)
  (Hxy : (x <=? y) = true) :
  (computeNicheScore x <=? computeNicheScore y) = true
  /\ In (computeNicheScore z) [35; 55; 75; 100].
Proof.
  split.
  - apply (ladder_mono 0.75 0.6 0.45 100 75 55 35 x y); try reflexivity.
    exact Hxy.
  - unfold computeNicheScore.
    destruct (geb z 0.75); [cbn; tauto |].
    destruct (geb z 0.6); [cbn; tauto |].
    destruct (geb z 0.45); cbn; tauto.
Qed.

Lemma computeNicheScore_monotone_range_witness :
  (computeNicheScore 0.5 <=? computeNicheScore 0.6) = true
  /\ In (computeNicheScore 0) [35; 55; 75; 100].
Proof.
  apply (computeNicheScore_monotone_range 0.5 0.6 0). reflexivity.
Defined.

(** X3. The reach score is null exactly when reach is unavailable,
    whatever the ratio; when reach is available it is one of 35, 55, 75,
    100 (35 for a NaN ratio) and does not decrease when the ratio
    grows. *)
Theorem computeReachScore_available (x y z : number) (avail : bool)
  (Hxy : (x <=? y) = true) :
  (computeReachScore avail z = None <-> avail = false)
  /\ (exists a b, computeReachScore true x = Some a
                  /\ computeReachScore true y = Some b
                  /\ (a <=? b) = true)
  /\ (exists c, computeReachScore true z = Some c /\ In c [35; 55; 75; 100])
  /\ computeReachScore true nan = Some 35.
Proof.
  assert (Hform : forall t,
            computeReachScore true t
            = Some (if geb t 1.2 then 100 else if geb t 0.8 then 75
                    else if geb t 0.5 then 55 else 35)).
  { intros t. unfold computeReachScore. cbn [negb].
    destruct (geb t 1.2); [reflexivity |].
    destruct (geb t 0.8); [reflexivity |]. now destruct (geb t 0.5). }
  repeat split.
  - destruct avail; [| reflexivity]. rewrite Hform. discriminate.
  - intros ->. reflexivity.
  - eexists; eexists. split; [apply Hform |]. split; [apply Hform |].
    apply (ladder_mono 1.2 0.8 0.5 100 75 55 35 x y); try reflexivity.
    exact Hxy.
  - eexists. split; [apply Hform |].
    destruct (geb z 1.2); [cbn; tauto |].
    destruct (geb z 0.8); [cbn; tauto |].
    destruct (geb z 0.5); cbn; tauto.
Qed.

Lemma computeReachScore_available_witness :
  (computeReachScore false 2 = None <-> false = false)
  /\ (exists a b, computeReachScore true 0.7 = Some a
                  /\ computeReachScore true 0.9 = Some b
                  /\ (a <=? b) = true)
  /\ (exists c, computeReachScore true 2 = Some c /\ In c [35; 55; 75; 100])
  /\ computeReachScore true nan = Some 35.
Proof.
  apply (computeReachScore_available 0.7 0.9 2 false). reflexivity.
Defined.

End Ladders.

(** ** [clamp] and the total score outside the valid inputs *)

Section Clamp.

Lemma SFltb_not_leb a b : SFltb a b = true -> SFleb b a = false.
Proof.
  unfold SFltb, SFleb, SFcompare.
  sf_destruct a; sf_destruct b; sf_order_close.
Qed.

Lemma SFleb_antisym_eqb a b :
  SFleb a b = true -> SFleb b a = true -> SFeqb a b = true.
Proof.
  unfold SFeqb, SFleb, SFcompare.
  sf_destruct a; sf_destruct b; sf_order_close.
Qed.

Lemma SFeqb_trans a b c :
  SFeqb a b = true -> SFeqb b c = true -> SFeqb a c = true.
Proof.
  unfold SFeqb, SFcompare.
  sf_destruct a; sf_destruct b; sf_destruct c; sf_order_close.
Qed.

Lemma ltb_not_leb (a b : number) : (a <? b) = true -> (b <=? a) = false.
Proof. rewrite ltb_spec, leb_spec. apply SFltb_not_leb. Qed.

Lemma leb_antisym_eqb (a b : number) :
  (a <=? b) = true -> (b <=? a) = true -> (a =? b) = true.
Proof. rewrite !leb_spec, eqb_spec. apply SFleb_antisym_eqb. Qed.

Lemma eqb_trans (a b c : number) :
  (a =? b) = true -> (b =? c) = true -> (a =? c) = true.
Proof. rewrite !eqb_spec. apply SFeqb_trans. Qed.

Lemma is_nan_false_leb (a : number) : is_nan a = false <-> (a <=? a) = true.
Proof. rewrite is_nan_leb. now destruct (a <=? a). Qed.

(** What [Math.min] and [Math.max] return on two numbers that are not
    NaN: one of the arguments, on the right side of both. *)
Lemma Math_min_spec (a b : number) :
  (a <=? a) = true -> (b <=? b) = true ->
  (Math_min a b = a \/ Math_min a b = b)
  /\ (Math_min a b <=? a) = true /\ (Math_min a b <=? b) = true.
Proof.
  intros Ha Hb. unfold Math_min.
  rewrite (proj2 (is_nan_false_leb a) Ha), (proj2 (is_nan_false_leb b) Hb).
  cbn [orb].
  destruct (a <? b) eqn:Hab.
  { repeat split; auto using ltb_leb. }
  destruct (b <? a) eqn:Hba.
  { repeat split; auto using ltb_leb. }
  pose proof (ltb_false_leb _ _ Hab Ha Hb) as Hle1.
  pose proof (ltb_false_leb _ _ Hba Hb Ha) as Hle2.
  destruct (get_sign a); repeat split; auto.
Qed.

Lemma Math_max_spec (a b : number) :
  (a <=? a) = true -> (b <=? b) = true ->
  (Math_max a b = a \/ Math_max a b = b)
  /\ (a <=? Math_max a b) = true /\ (b <=? Math_max a b) = true.
Proof.
  intros Ha Hb. unfold Math_max.
  rewrite (proj2 (is_nan_false_leb a) Ha), (proj2 (is_nan_false_leb b) Hb).
  cbn [orb].
  destruct (a <? b) eqn:Hab.
  { repeat split; auto using ltb_leb. }
  destruct (b <? a) eqn:Hba.
  { repeat split; auto using ltb_leb. }
  pose proof (ltb_false_leb _ _ Hab Ha Hb) as Hle1.
  pose proof (ltb_false_leb _ _ Hba Hb Ha) as Hle2.
  destruct (get_sign a); repeat split; auto.
Qed.

Lemma clamp_nan (n lo hi : number) :
  is_nan n = true -> is_nan (clamp n lo hi) = true.
Proof.
  intros Hn. unfold clamp, Math_min. rewrite Hn, orb_true_r.
  unfold Math_max. replace (is_nan nan) with true by reflexivity.
  now rewrite orb_true_r.
Qed.

Lemma clamp_in_range (n lo hi : number) :
  (lo <=? hi) = true -> is_nan n = false ->
  (lo <=? clamp n lo hi) = true /\ (clamp n lo hi <=? hi) = true.
Proof.
  intros Hlohi Hn. apply is_nan_false_leb in Hn.
  pose proof (leb_refl_l _ _ Hlohi) as Hlo.
  pose proof (leb_refl_r _ _ Hlohi) as Hhi.
  unfold clamp.
  destruct (Math_min_spec hi n Hhi Hn) as [Hm [Hm1 Hm2]].
  pose proof (leb_refl_l _ _ Hm1) as Hmm.
  destruct (Math_max_spec lo (Math_min hi n) Hlo Hmm) as [[E | E] [Hx1 Hx2]].
  - rewrite E. split; assumption.
  - rewrite E. split; [now rewrite <- E | assumption].
Qed.

(** X4. For bounds [lo <= hi], [clamp] maps NaN to NaN, maps every other
    number into [lo, hi], and returns a number equal to its argument when
    the argument already lies in [lo, hi]. *)
Theorem clamp_spec (n lo hi : number) (Hlohi : (lo <=? hi) = true) :
  (is_nan n = true -> is_nan (clamp n lo hi) = true)
  /\ (is_nan n = false ->
      (lo <=? clamp n lo hi) = true /\ (clamp n lo hi <=? hi) = true)
  /\ ((lo <=? n) = true -> (n <=? hi) = true -> (clamp n lo hi =? n) = true).
Proof.
  split; [apply clamp_nan |]. split; [now apply clamp_in_range |].
  intros Hlon Hnhi.
  pose proof (leb_refl_l _ _ Hlohi) as Hlo.
  pose proof (leb_refl_r _ _ Hlohi) as Hhi.
  pose proof (leb_refl_l _ _ Hnhi) as Hn.
  unfold clamp.
  destruct (Math_min_spec hi n Hhi Hn) as [Hm [Hm1 Hm2]].
  pose proof (leb_refl_l _ _ Hm1) as Hmm.
  assert (Hmn : (Math_min hi n =? n) = true).
  { destruct Hm as [E | E]; rewrite E.
    - apply leb_antisym_eqb; [now rewrite <- E | assumption].
    - now apply leb_antisym_eqb. }
  assert (Hlom : (lo <=? Math_min hi n) = true).
  { destruct Hm as [E | E]; rewrite E; assumption. }
  destruct (Math_max_spec lo (Math_min hi n) Hlo Hmm) as [[E | E] [Hx1 Hx2]].
  - apply eqb_trans with (b := Math_min hi n); [| assumption].
    rewrite E. apply leb_antisym_eqb; [assumption | now rewrite <- E].
  - rewrite E. assumption.
Qed.

Lemma clamp_spec_witness :
  (is_nan 120 = true -> is_nan (clamp 120 0 100) = true)
  /\ (is_nan 120 = false ->
      (0 <=? clamp 120 0 100) = true /\ (clamp 120 0 100 <=? 100) = true)
  /\ ((0 <=? 120) = true -> (120 <=? 100) = true ->
      (clamp 120 0 100 =? 120) = true).
Proof. apply (clamp_spec 120 0 100). reflexivity. Defined.

(** NaN goes through the arithmetic of the weighted sums. *)
Lemma is_nan_mul_r (a b : number) : is_nan b = true -> is_nan (a * b) = true.
Proof.
  rewrite !is_nan_spec, mul_spec. intros ->. unfold SF64mul, SFmul.
  now destruct (Prim2SF a).
Qed.

Lemma is_nan_add_l (a b : number) : is_nan a = true -> is_nan (a + b) = true.
Proof.
  rewrite !is_nan_spec, add_spec. intros ->. reflexivity.
Qed.

Lemma is_nan_add_r (a b : number) : is_nan b = true -> is_nan (a + b) = true.
Proof.
  rewrite !is_nan_spec, add_spec. intros ->. unfold SF64add, SFadd.
  now destruct (Prim2SF a).
Qed.

Lemma is_nan_sub_l (a b : number) : is_nan a = true -> is_nan (a - b) = true.
Proof.
  rewrite !is_nan_spec, sub_spec. intros ->. reflexivity.
Qed.

Lemma is_nan_sub_r (a b : number) : is_nan b = true -> is_nan (a - b) = true.
Proof.
  rewrite !is_nan_spec, sub_spec. intros ->. unfold SF64sub, SFsub.
  now destruct (Prim2SF a).
Qed.

Lemma Math_round_nan (x : number) :
  is_nan x = true -> is_nan (Math_round x) = true.
Proof. intros H. unfold Math_round. now rewrite H. Qed.

(** X5. Whatever numbers it is given, [computeTotalScore] never returns
    a number outside [0, 100]: the result is in [0, 100] or it is NaN. *)
Theorem computeTotalScore_range_or_nan (i : TotalInput) :
  is_nan (computeTotalScore i) = true
  \/ ((0 <=? computeTotalScore i) = true
      /\ (computeTotalScore i <=? 100) = true).
Proof.
  assert (H : forall t, is_nan (clamp t 0 100) = true
                        \/ ((0 <=? clamp t 0 100) = true
                            /\ (clamp t 0 100 <=? 100) = true)).
  { intros t. destruct (is_nan t) eqn:Ht.
    - left. now apply clamp_nan.
    - right. now apply clamp_in_range. }
  unfold computeTotalScore.
  destruct (reachAvailable i); [destruct (reachScore i) |]; apply H.
Qed.

(** X6. A NaN among the engagement, consistency or niche score or the
    fraud penalty makes the total NaN, with or without reach: the bounds
    of the total hold only for inputs that are numbers. *)
Theorem computeTotalScore_nan (i : TotalInput)
  (Hnan : is_nan (erScore i) || is_nan (consistencyScore i)
          || is_nan (nicheScore i) || is_nan (fraudPenalty i) = true) :
  is_nan (computeTotalScore i) = true.
Proof.
  unfold computeTotalScore.
  assert (Hno : is_nan (weightedNoReach (erScore i) (consistencyScore i)
                          (nicheScore i) (fraudPenalty i)) = true).
  { unfold weightedNoReach.
    repeat (apply orb_true_iff in Hnan; destruct Hnan as [Hnan | Hnan]).
    - apply is_nan_sub_l, is_nan_add_l, is_nan_add_l. now apply is_nan_mul_r.
    - apply is_nan_sub_l, is_nan_add_l, is_nan_add_r. now apply is_nan_mul_r.
    - apply is_nan_sub_l, is_nan_add_r. now apply is_nan_mul_r.
    - apply is_nan_sub_r. now apply is_nan_mul_r. }
  assert (Hwith : forall r,
            is_nan (weightedWithReach (erScore i) r (consistencyScore i)
                      (nicheScore i) (fraudPenalty i)) = true).
  { intros r. unfold weightedWithReach.
    repeat (apply orb_true_iff in Hnan; destruct Hnan as [Hnan | Hnan]).
    - apply is_nan_sub_l, is_nan_add_l, is_nan_add_l, is_nan_add_l.
      now apply is_nan_mul_r.
    - apply is_nan_sub_l, is_nan_add_l, is_nan_add_r. now apply is_nan_mul_r.
    - apply is_nan_sub_l, is_nan_add_r. now apply is_nan_mul_r.
    - apply is_nan_sub_r. now apply is_nan_mul_r. }
  destruct (reachAvailable i); [destruct (reachScore i) |];
    apply clamp_nan, Math_round_nan; auto.
Qed.

Lemma computeTotalScore_nan_witness :
  is_nan (computeTotalScore
            {| erScore := nan; reachScore := None; consistencyScore := 70;
               nicheScore := 100; fraudPenalty := 0;
               reachAvailable := false |}) = true.
Proof. apply computeTotalScore_nan. reflexivity. Defined.

End Clamp.

(** * Further properties of the classifier *)

Section ClosedForm.

Import Closed.

Lemma getProp_app_notin {V : Type} (A B : list (string * V)) k :
  ~ In k (map fst A) -> getProp (A ++ B) k = getProp B k.
Proof.
  induction A as [| [k' v'] A IH]; cbn; intros H; [reflexivity |].
  destruct (String.eqb_spec k' k) as [-> | Hne]; [tauto |].
  apply IH. tauto.
Qed.

Lemma setProp_app_notin {V : Type} (A B : list (string * V)) k v :
  ~ In k (map fst A) -> setProp (A ++ B) k v = A ++ setProp B k v.
Proof.
  induction A as [| [k' v'] A IH]; cbn; intros H; [reflexivity |].
  destruct (String.eqb_spec k' k) as [-> | Hne]; [tauto |].
  rewrite IH by tauto. reflexivity.
Qed.

Lemma getProp_head {V : Type} (B : list (string * V)) k v :
  getProp ((k, v) :: B) k = Some v.
Proof. cbn. now rewrite String.eqb_refl. Qed.

Lemma setProp_head {V : Type} (B : list (string * V)) k v v' :
  setProp ((k, v) :: B) k v' = (k, v') :: B.
Proof. cbn. now rewrite String.eqb_refl. Qed.

Lemma firstn_push {A : Type} (h : list A) (w : A) :
  firstn 8 (h ++ [w])
  = if (List.length (firstn 8 h) <? 8)%nat then firstn 8 h ++ [w]
    else firstn 8 h.
Proof.
  destruct (Nat.ltb_spec (List.length (firstn 8 h)) 8) as [Hlt | Hge].
  - assert (Hh : (List.length h < 8)%nat).
    { rewrite length_firstn in Hlt. lia. }
    rewrite (firstn_all2 (n := 8) h) by lia.
    apply firstn_all2. rewrite length_app. cbn. lia.
  - assert (Hh : (8 <= List.length h)%nat).
    { rewrite length_firstn in Hge. lia. }
    rewrite firstn_app. replace (8 - List.length h)%nat with 0%nat by lia.
    cbn. now rewrite app_nil_r.
Qed.

Lemma getProp_notin {V : Type} (E : list (string * V)) k :
  ~ In k (map fst E) -> getProp E k = None.
Proof.
  intros H. rewrite <- (app_nil_r E). now rewrite getProp_app_notin.
Qed.

Lemma setProp_notin {V : Type} (E : list (string * V)) k v :
  ~ In k (map fst E) -> setProp E k v = E ++ [(k, v)].
Proof.
  intros H. rewrite <- (app_nil_r E) at 1. now rewrite setProp_app_notin.
Qed.

(** One more hit [w] for the niche [k]: the update of the evidence
    table. *)
Lemma evidence_push k (E : list (string * list string)) h w :
  ~ In k (map fst E) ->
  (let ev := match getProp (E ++ evidenceEntry k h) k with
             | Some l => l
             | None => []
             end in
   let evidence' := setProp (E ++ evidenceEntry k h) k ev in
   if (List.length ev <? 8)%nat then setProp evidence' k (ev ++ [w])
   else evidence')
  = E ++ evidenceEntry k (h ++ [w]).
Proof.
  intros HE. cbv zeta. destruct h as [| a h].
  - cbn [app evidenceEntry]. rewrite !app_nil_r.
    rewrite (getProp_notin E k HE), (setProp_notin E k [] HE).
    cbn [List.length Nat.ltb Nat.leb app].
    rewrite (setProp_app_notin E) by assumption.
    now rewrite setProp_head.
  - change ((a :: h) ++ [w]) with (a :: (h ++ [w])).
    unfold evidenceEntry.
    change (a :: (h ++ [w])) with ((a :: h) ++ [w]).
    rewrite !(getProp_app_notin E), getProp_head by assumption.
    rewrite !(setProp_app_notin E), !setProp_head by assumption.
    rewrite (firstn_push (a :: h) w).
    destruct (List.length (firstn 8 (a :: h)) <? 8)%nat; reflexivity.
Qed.

(** The inner loop, started after the hits [h] of the niche [k]. *)
Lemma visitWords_closed text k A B E ws :
  ~ In k (map fst A) -> ~ In k (map fst E) ->
  forall h,
  fold_left (visitWord text k) ws
    {| scores := A ++ (k, Z.of_nat (List.length h)) :: B;
       evidence := E ++ evidenceEntry k h |}
  = {| scores := A ++ (k, Z.of_nat (List.length (h ++ hits text ws))) :: B;
       evidence := E ++ evidenceEntry k (h ++ hits text ws) |}.
Proof.
  intros HA HE. induction ws as [| w ws IH]; intros h.
  - cbn. now rewrite app_nil_r.
  - cbn [fold_left hits filter]. unfold visitWord at 2. fold (hits text ws).
    destruct (includes text w) eqn:Hw.
    + cbn [scores evidence].
      rewrite (getProp_app_notin A), getProp_head by assumption.
      rewrite (setProp_app_notin A), setProp_head by assumption.
      replace (Z.of_nat (List.length h) + 1)%Z
        with (Z.of_nat (List.length (h ++ [w])))
        by (rewrite length_app; cbn; lia).
      pose proof (evidence_push k E h w HE) as Hev.
      cbv zeta in Hev. rewrite Hev.
      rewrite IH. now rewrite <- !app_assoc.
    + apply IH.
Qed.

Lemma visitNiche_closed text A B E k ws :
  ~ In k (map fst A) -> ~ In k (map fst E) ->
  visitNiche text {| scores := A ++ (k, 0%Z) :: B; evidence := E |} (k, ws)
  = {| scores := A ++ counted text (k, ws) :: B;
       evidence := E ++ evidenceOf text (k, ws) |}.
Proof.
  intros HA HE. unfold visitNiche, counted, evidenceOf, hitCount. cbn [fst snd].
  pose proof (visitWords_closed text k A B E ws HA HE []) as H.
  cbn [List.length evidenceEntry app] in H. rewrite app_nil_r in H.
  exact H.
Qed.

Lemma evidenceOf_keys text (d : list (string * list string)) k :
  In k (map fst (flat_map (evidenceOf text) d)) -> In k (map fst d).
Proof.
  induction d as [| [k' ws] d IH]; cbn; [tauto |].
  rewrite map_app, in_app_iff. intros [H | H]; [| right; now apply IH].
  unfold evidenceOf, evidenceEntry in H. cbn [fst snd] in H.
  destruct (hits text ws); cbn in H; tauto.
Qed.

(** The outer loop, started after the niches [d1]. *)
Lemma visitNiches_closed text (d2 : list (string * list string)) :
  forall d1, NoDup (map fst (d1 ++ d2)) ->
  fold_left (visitNiche text) d2
    {| scores := map (counted text) d1 ++ map (fun kw => (fst kw, 0%Z)) d2;
       evidence := flat_map (evidenceOf text) d1 |}
  = {| scores := map (counted text) (d1 ++ d2);
       evidence := flat_map (evidenceOf text) (d1 ++ d2) |}.
Proof.
  induction d2 as [| [k ws] d2 IH]; intros d1 Hnd.
  - cbn. now rewrite !app_nil_r.
  - assert (Hk : ~ In k (map fst d1)).
    { rewrite map_app in Hnd. cbn in Hnd.
      apply NoDup_remove_2 in Hnd. rewrite in_app_iff in Hnd. tauto. }
    cbn [fold_left map fst]. rewrite visitNiche_closed.
    + assert (Hsplit : d1 ++ (k, ws) :: d2 = (d1 ++ [(k, ws)]) ++ d2)
        by (now rewrite <- app_assoc).
      rewrite Hsplit in Hnd |- *. rewrite <- (IH _ Hnd).
      rewrite map_app, flat_map_app. cbn [map flat_map].
      now rewrite app_nil_r, <- app_assoc.
    + rewrite map_map. cbn [counted fst]. exact Hk.
    + intros Hin. apply Hk. now apply (evidenceOf_keys text).
Qed.

Lemma DICTS_keys_NoDup : NoDup (map fst DICTS).
Proof.
  cbn. repeat constructor; cbn; intuition discriminate.
Qed.

(** The tally of a text, as a record. *)
Lemma tally_closed (text : string) :
  tally text = {| scores := map (counted text) DICTS;
                  evidence := flat_map (evidenceOf text) DICTS |}.
Proof.
  pose proof (visitNiches_closed text DICTS [] DICTS_keys_NoDup) as H.
  change (fold_left (visitNiche text) DICTS initialTally
          = {| scores := map (counted text) DICTS;
               evidence := flat_map (evidenceOf text) DICTS |}) in H.
  unfold tally. exact H.
Qed.

(** X7. The two loops of the classifier count, for every niche, the
    keywords of the niche that occur in the text, each keyword once and
    in dictionary order, and keep for every niche with a hit the first
    eight of them as evidence, the niches in dictionary order. *)
Theorem tally_closed_form (text : string) :
  scores (tally text) = map (counted text) DICTS
  /\ evidence (tally text) = flat_map (evidenceOf text) DICTS.
Proof.
  unfold tally.
  pose proof (visitNiches_closed text DICTS [] DICTS_keys_NoDup) as H.
  cbn [app] in H.
  change (map (counted text) [] ++ map (fun kw => (fst kw, 0%Z)) DICTS)
    with (scores initialTally) in H.
  change (flat_map (evidenceOf text) []) with (evidence initialTally) in H.
  change {| scores := scores initialTally; evidence := evidence initialTally |}
    with initialTally in H.
  rewrite H. split; reflexivity.
Qed.

End ClosedForm.

Section Ranking.

Import Closed.

Lemma insertRanked_perm x l : Permutation (insertRanked x l) (x :: l).
Proof.
  induction l as [| y l IH]; cbn; [reflexivity |].
  destruct (snd x <? snd y)%Z; [| reflexivity].
  rewrite IH. apply perm_swap.
Qed.

Lemma insertRanked_sorted x l :
  StronglySorted (fun a b => (snd b <= snd a)%Z) l ->
  StronglySorted (fun a b => (snd b <= snd a)%Z) (insertRanked x l).
Proof.
  induction l as [| y l IH]; intros Hs; cbn.
  - repeat constructor.
  - inversion Hs as [| ? ? Hl Hy]; subst.
    destruct (Z.ltb_spec (snd x) (snd y)) as [Hlt | Hge].
    + constructor; [now apply IH |].
      eapply Permutation_Forall; [symmetry; apply insertRanked_perm |].
      constructor; [lia | assumption].
    + constructor; [assumption |].
      constructor; [assumption |].
      eapply Forall_impl; [| exact Hy]. cbn. intros a Ha. lia.
Qed.

Lemma insertRanked_filter n x l :
  filter (fun kv => (snd kv =? n)%Z) (insertRanked x l)
  = filter (fun kv => (snd kv =? n)%Z) (x :: l).
Proof.
  induction l as [| y l IH]; [reflexivity |].
  cbn [insertRanked].
  destruct (Z.ltb_spec (snd x) (snd y)) as [Hlt | Hge]; [| reflexivity].
  cbn [filter] in *. rewrite IH.
  destruct (Z.eqb_spec (snd x) n), (Z.eqb_spec (snd y) n);
    try reflexivity. lia.
Qed.

Lemma sortRanked_perm (l : list (string * Z)) : Permutation (sortRanked l) l.
Proof.
  unfold sortRanked. induction l as [| x l IH]; [constructor |].
  cbn [fold_right]. rewrite insertRanked_perm. now constructor.
Qed.

(** X8. The ranking is a stable sort by decreasing count: the ranked
    list is a rearrangement of the table, its counts never increase, and
    the niches with one and the same count keep the order they have in
    the table. *)
Theorem sortRanked_stable (l : list (string * Z)) :
  Permutation (sortRanked l) l
  /\ StronglySorted (fun a b => (snd b <= snd a)%Z) (sortRanked l)
  /\ forall n, filter (fun kv => (snd kv =? n)%Z) (sortRanked l)
               = filter (fun kv => (snd kv =? n)%Z) l.
Proof.
  unfold sortRanked. induction l as [| x l [IHp [IHs IHf]]].
  - repeat split; constructor.
  - cbn [fold_right]. repeat split.
    + rewrite insertRanked_perm. now constructor.
    + now apply insertRanked_sorted.
    + intros n. rewrite insertRanked_filter. cbn [filter]. now rewrite IHf.
Qed.

(** The first of the ranking is the first entry of the table with the
    largest count. *)
Lemma sortRanked_head (l : list (string * Z)) x s :
  sortRanked l = x :: s ->
  exists l1 l2, l = l1 ++ x :: l2
                /\ Forall (fun y => (snd y < snd x)%Z) l1
                /\ Forall (fun y => (snd y <= snd x)%Z) l2.
Proof.
  unfold sortRanked. revert x s.
  induction l as [| a l IH]; intros x s H; [discriminate H |].
  cbn [fold_right] in H.
  destruct (fold_right insertRanked [] l) as [| y s'] eqn:Hl.
  - cbn in H. injection H as <- <-.
    assert (l = []) as ->.
    { destruct l; [reflexivity |]. cbn in Hl.
      pose proof (insertRanked_perm p (fold_right insertRanked [] l)) as Hp.
      rewrite Hl in Hp. now apply Permutation_nil_cons in Hp. }
    exists [], []. repeat split; constructor.
  - destruct (IH y s' eq_refl) as [m1 [m2 [El [H1 H2]]]].
    cbn [insertRanked] in H.
    destruct (Z.ltb_spec (snd a) (snd y)) as [Hlt | Hge].
    + injection H as <- _. exists (a :: m1), m2. subst l.
      repeat split; [constructor; assumption | assumption].
    + injection H as <- _. exists [], l. subst l.
      repeat split; [constructor |].
      apply Forall_app. split.
      * eapply Forall_impl; [| exact H1]. cbn. intros; lia.
      * constructor; [lia |].
        eapply Forall_impl; [| exact H2]. cbn. intros; lia.
Qed.

End Ranking.

Section ClassifierShape.

Import Closed.

Variable toLowerCase : string -> string.
Variables bio declared : string.

Let text : string := toLowerCase (bio ++ " " ++ declared)%string.

Lemma sumCounts_fold_left (l : list (string * Z)) (a : Z) :
  fold_left (fun s kv => (s + snd kv)%Z) l a = (a + sumCounts l)%Z.
Proof.
  unfold sumCounts. revert a.
  induction l as [| x l IH]; intros a; cbn; [lia |]. rewrite IH. lia.
Qed.

Lemma sumCounts_perm (l l' : list (string * Z)) :
  Permutation l l' -> sumCounts l = sumCounts l'.
Proof.
  unfold sumCounts. induction 1; cbn; lia.
Qed.

Lemma sumCounts_app (l l' : list (string * Z)) :
  sumCounts (l ++ l') = (sumCounts l + sumCounts l')%Z.
Proof.
  unfold sumCounts. induction l as [| x l IH]; cbn; [reflexivity |].
  fold (map snd (l ++ l')). lia.
Qed.

Lemma hitCount_bounds (t : string) ws :
  (0 <= hitCount t ws <= Z.of_nat (List.length ws))%Z.
Proof.
  unfold hitCount, hits. pose proof (filter_length_le (includes t) ws). lia.
Qed.

Lemma sumCounts_counted_bounds (t : string) (d : list (string * list string)) :
  (0 <= sumCounts (map (counted t) d)
     <= Z.of_nat (List.length (flat_map snd d)))%Z.
Proof.
  unfold sumCounts. induction d as [| [k ws] d IH]; cbn; [lia |].
  rewrite length_app. pose proof (hitCount_bounds t ws).
  fold (map snd (map (counted t) d)) in *. lia.
Qed.

Lemma hits_nil_iff (t : string) ws :
  hits t ws = [] <-> forallb (fun w => negb (includes t w)) ws = true.
Proof.
  unfold hits. induction ws as [| w ws IH]; cbn; [tauto |].
  destruct (includes t w); cbn; [split; discriminate | exact IH].
Qed.

Lemma hitCount_zero_iff (t : string) ws :
  hitCount t ws = 0%Z <-> hits t ws = [].
Proof.
  unfold hitCount. destruct (hits t ws); cbn; split;
    intros H; try reflexivity; try discriminate H; lia.
Qed.

(** The classifier in terms of the ranking of the closed table. *)
Lemma classifyNiche_ranked :
  exists k k2 p2 rest d1 ws d2,
    sortRanked (map (counted text) DICTS)
    = (k, hitCount text ws) :: (k2, p2) :: rest
    /\ DICTS = d1 ++ (k, ws) :: d2
    /\ Forall (fun kw => (hitCount text (snd kw) < hitCount text ws)%Z) d1
    /\ Forall (fun kw => (hitCount text (snd kw) <= hitCount text ws)%Z) d2
    /\ k2 <> k
    /\ classifyNiche toLowerCase bio declared
       = Some {| primary_niche :=
                   if (hitCount text ws =? 0)%Z then "general"%string else k;
                 secondary_niches :=
                   if (hitCount text ws =? 0)%Z then []
                   else filter (fun _ => (0 <? p2)%Z) [k2];
                 confidence :=
                   confidenceOf (hitCount text ws)
                                (sumCounts (map (counted text) DICTS));
                 evidence_keywords := firstn 8 (hits text ws) |}.
Proof.
  assert (Hs : scores (tally text) = map (counted text) DICTS)
    by (now rewrite tally_closed).
  assert (He : evidence (tally text) = flat_map (evidenceOf text) DICTS)
    by (now rewrite tally_closed).
  pose proof (sortRanked_perm (map (counted text) DICTS)) as Hperm.
  pose proof (sortRanked_length (map (counted text) DICTS)) as Hlen.
  rewrite length_map in Hlen.
  destruct (sortRanked (map (counted text) DICTS))
    as [| [k p] [| [k2 p2] rest]] eqn:Hr; try discriminate Hlen.
  destruct (sortRanked_head _ _ _ Hr) as [l1 [l2 [Hl [H1 H2]]]].
  apply map_eq_app in Hl. destruct Hl as [d1 [d2' [Hd [Hm1 Hm2]]]].
  apply map_eq_cons in Hm2. destruct Hm2 as [[k' ws] [d2 [Hd2 [Hkw Hm2]]]].
  unfold counted in Hkw. cbn [fst snd] in Hkw.
  injection Hkw as -> <-. subst d2' l1 l2.
  exists k, k2, p2, rest, d1, ws, d2.
  assert (Hnd : NoDup (map fst ((k, hitCount text ws) :: (k2, p2) :: rest))).
  { apply (Permutation_NoDup (l := map fst (map (counted text) DICTS))).
    - apply Permutation_map. now symmetry.
    - rewrite map_map. cbn [counted fst]. apply DICTS_keys_NoDup. }
  split; [reflexivity |]. split; [exact Hd |].
  split; [rewrite Forall_map in H1; exact H1 |].
  split; [rewrite Forall_map in H2; exact H2 |].
  split.
  - cbn in Hnd. inversion Hnd as [| ? ? Hnotin _]; subst.
    intros ->. apply Hnotin. now left.
  - unfold classifyNiche. fold text. rewrite Hs, He, Hr.
    assert (Htot : totalHits ((k, hitCount text ws) :: (k2, p2) :: rest)
                   = if (sumCounts (map (counted text) DICTS) =? 0)%Z
                     then 1%Z else sumCounts (map (counted text) DICTS)).
    { unfold totalHits. rewrite sumCounts_fold_left, Z.add_0_l.
      now rewrite (sumCounts_perm _ _ Hperm). }
    assert (Hev : firstn 8 match getProp (flat_map (evidenceOf text) DICTS) k
                           with
                           | Some l => l
                           | None => []
                           end
                  = firstn 8 (hits text ws)).
    { pose proof DICTS_keys_NoDup as Hk. rewrite Hd in Hk |- *.
      rewrite flat_map_app. cbn [flat_map].
      rewrite map_app in Hk. cbn [map fst] in Hk.
      assert (Hk1 : ~ In k (map fst d1)).
      { apply NoDup_remove_2 in Hk. rewrite in_app_iff in Hk. tauto. }
      assert (Hk2 : ~ In k (map fst d2)).
      { apply NoDup_app_remove_l in Hk. now inversion Hk. }
      rewrite getProp_app_notin
        by (intros Hin; apply Hk1; now apply (evidenceOf_keys text)).
      unfold evidenceOf at 1. cbn [fst snd].
      destruct (hits text ws) as [| a h] eqn:Hh.
      - cbn [evidenceEntry app].
        rewrite getProp_notin
          by (intros Hin; apply Hk2; now apply (evidenceOf_keys text)).
        reflexivity.
      - unfold evidenceEntry. cbn [app]. rewrite getProp_head.
        now rewrite firstn_firstn. }
    rewrite Htot, Hev. unfold confidenceOf.
    destruct (negb (String.eqb declared "")); reflexivity.
Qed.

(** X9. The classifier always returns. Its primary niche is the first
    niche of the dictionary, in dictionary order, that has the largest
    number of keywords occurring in the text, or general when that number
    is 0; its evidence is the first eight of those keywords; its
    confidence is that number over the number of hits of all niches (over
    1 when there is none), to two decimals; and it reports at most one
    secondary niche, never the primary one. *)
Theorem classifyNiche_characterised :
  exists r d1 k ws d2,
    classifyNiche toLowerCase bio declared = Some r
    /\ DICTS = d1 ++ (k, ws) :: d2
    /\ Forall (fun kw => (hitCount text (snd kw) < hitCount text ws)%Z) d1
    /\ Forall (fun kw => (hitCount text (snd kw) <= hitCount text ws)%Z) d2
    /\ primary_niche r
       = (if (hitCount text ws =? 0)%Z then "general"%string else k)
    /\ evidence_keywords r = firstn 8 (hits text ws)
    /\ confidence r
       = confidenceOf (hitCount text ws)
                      (sumCounts (map (counted text) DICTS))
    /\ (List.length (secondary_niches r) <= 1)%nat
    /\ ~ In k (secondary_niches r).
Proof.
  destruct classifyNiche_ranked
    as [k [k2 [p2 [rest [d1 [ws [d2 [Hr [Hd [H1 [H2 [Hne Hc]]]]]]]]]]]].
  eexists; exists d1, k, ws, d2. split; [exact Hc |].
  cbn [primary_niche evidence_keywords confidence secondary_niches].
  repeat split; try assumption.
  - destruct (hitCount text ws =? 0)%Z; [cbn; lia |].
    cbn. destruct (0 <? p2)%Z; cbn; lia.
  - destruct (hitCount text ws =? 0)%Z; [cbn; tauto |].
    cbn. destruct (0 <? p2)%Z; cbn; [| tauto]. intros [E | []]. now apply Hne.
Qed.

Lemma confidence_check : confidence_ok 72 = true.
Proof. vm_cast_no_check (eq_refl true). Qed.

Lemma confidence_ok_sound (tmax : nat) (p t : Z) :
  confidence_ok tmax = true ->
  (0 <= p <= t)%Z -> (1 <= t <= Z.of_nat tmax)%Z ->
  let c := confidenceOf p t in
  (0 <=? c) = true /\ (c <=? 1) = true
  /\ (if (p =? 0)%Z then c = 0 else (0 <? c) = true).
Proof.
  unfold confidence_ok. intros H Hp Ht.
  rewrite forallb_forall in H.
  specialize (H t (Zrange_In 1 tmax t ltac:(lia))). cbv beta in H.
  rewrite forallb_forall in H.
  specialize (H p (Zrange_In 0 (S (Z.to_nat t)) p ltac:(lia))).
  cbv zeta in H. cbv zeta.
  apply andb_true_iff in H. destruct H as [H H3].
  apply andb_true_iff in H. destruct H as [H1 H2].
  repeat split; try assumption.
  destruct (p =? 0)%Z; [now apply Leibniz.eqb_spec | assumption].
Qed.

Lemma noKeyword_counts :
  noKeyword text = true
  <-> Forall (fun kw => hitCount text (snd kw) = 0%Z) DICTS.
Proof.
  unfold noKeyword. rewrite forallb_forall, Forall_forall.
  split; intros H kw Hin.
  - apply hitCount_zero_iff, hits_nil_iff. now apply H.
  - apply hits_nil_iff, hitCount_zero_iff. now apply H.
Qed.

(** X10. The confidence the classifier reports lies in [0, 1]. When no
    keyword occurs in the text it is 0 and the primary niche is general;
    when some keyword occurs it is positive, the primary niche is a niche
    of the dictionary and the evidence is not empty. *)
Theorem classifyNiche_confidence :
  exists r,
    classifyNiche toLowerCase bio declared = Some r
    /\ (0 <=? confidence r) = true /\ (confidence r <=? 1) = true
    /\ (if noKeyword text
        then confidence r = 0 /\ primary_niche r = "general"%string
        else (0 <? confidence r) = true
             /\ In (primary_niche r) (map fst DICTS)
             /\ evidence_keywords r <> []).
Proof.
  destruct classifyNiche_ranked
    as [k [k2 [p2 [rest [d1 [ws [d2 [Hr [Hd [H1 [H2 [Hne Hc]]]]]]]]]]]].
  eexists. split; [exact Hc |].
  cbn [primary_niche evidence_keywords confidence].
  set (p := hitCount text ws) in *.
  set (t := sumCounts (map (counted text) DICTS)).
  assert (Hp0 : (0 <= p)%Z) by apply hitCount_bounds.
  assert (Ht : (p <= t <= 72)%Z).
  { split.
    - unfold t. rewrite Hd, map_app, sumCounts_app. cbn [map].
      change ((counted text (k, ws)) :: map (counted text) d2)
        with ([counted text (k, ws)] ++ map (counted text) d2).
      rewrite sumCounts_app.
      pose proof (sumCounts_counted_bounds text d1).
      pose proof (sumCounts_counted_bounds text d2).
      unfold sumCounts at 2. cbn. fold p. lia.
    - pose proof (sumCounts_counted_bounds text DICTS) as Hb.
      cbn [flat_map snd DICTS app List.length] in Hb. unfold t.
      change (Z.of_nat _) with 72%Z in Hb. lia. }
  assert (Hzero : noKeyword text = true <-> p = 0%Z).
  { rewrite noKeyword_counts. split.
    - intros Hall. rewrite Forall_forall in Hall.
      apply (Hall (k, ws)). rewrite Hd. apply in_elt.
    - intros Hz. rewrite Hd. apply Forall_app. split.
      + rewrite Forall_forall in H1 |- *. intros kw Hin.
        specialize (H1 kw Hin). pose proof (hitCount_bounds text (snd kw)).
        cbv beta in H1. lia.
      + constructor; [exact Hz |].
        rewrite Forall_forall in H2 |- *. intros kw Hin.
        specialize (H2 kw Hin). pose proof (hitCount_bounds text (snd kw)).
        cbv beta in H2. lia. }
  destruct (Z.eqb_spec p 0) as [Hz | Hnz].
  - rewrite (proj2 Hzero Hz). unfold confidenceOf. rewrite Hz.
    assert (Hc0 : forall u, (0 <= u <= 72)%Z ->
              Number_toFixed2 (num_of_Z 0 / num_of_Z (if (u =? 0)%Z then 1%Z
                                                     else u)) = 0).
    { intros u Hu. destruct (Z.eqb_spec u 0) as [-> | Hu0]; [reflexivity |].
      pose proof (confidence_ok_sound 72 0 u confidence_check ltac:(lia)
                    ltac:(lia)) as Hs.
      cbv zeta in Hs. unfold confidenceOf in Hs.
      destruct (Z.eqb_spec u 0); [contradiction |]. cbn [Z.eqb] in Hs.
      tauto. }
    rewrite (Hc0 t ltac:(lia)). repeat split; reflexivity.
  - destruct (noKeyword text) eqn:Hno.
    { exfalso. apply Hnz. now apply Hzero. }
    pose proof (confidence_ok_sound 72 p t confidence_check ltac:(lia)
                  ltac:(lia)) as Hs.
    cbv zeta in Hs. destruct Hs as [Hs1 [Hs2 Hs3]].
    destruct (Z.eqb_spec p 0); [contradiction |].
    repeat split; try assumption.
    + rewrite Hd, map_app, in_app_iff. right. now left.
    + intros Hev. apply Hnz. unfold p, hitCount.
      destruct (hits text ws); [reflexivity | discriminate Hev].
Qed.

End ClassifierShape.

(** * Further properties of the pipeline *)

Section ClassifierToBrands.

Import Closed.

(** The primary niche is a key of the dictionary or general. *)
Lemma classifyNiche_primary_tag (toLowerCase : string -> string)
  (bio declared : string) (r : NicheResult) :
  classifyNiche toLowerCase bio declared = Some r ->
  In (primary_niche r) (map fst DICTS ++ ["general"%string]).
Proof.
  destruct (classifyNiche_ranked toLowerCase bio declared)
    as [k [k2 [p2 [rest [d1 [ws [d2 [Hr [Hd [H1 [H2 [Hne Hc]]]]]]]]]]]].
  rewrite Hc. intros [= <-]. cbn [primary_niche].
  apply in_or_app.
  match goal with |- context [(?a =? 0)%Z] => destruct (a =? 0)%Z end.
  - right. now left.
  - left. rewrite Hd, map_app, in_app_iff. right. now left.
Qed.

(** X11. The primary niche the classifier returns always has an entry in
    the brand table: for every bio and declared category the brand
    mapper gives two non-empty lists for it. *)
Theorem classifyNiche_brand_targets (toLowerCase : string -> string)
  (bio declared : string) :
  exists r l e,
    classifyNiche toLowerCase bio declared = Some r
    /\ buildBrandTargets (primary_niche r)
       = {| targets_local := Some l; targets_ecommerce := Some e |}
    /\ l <> [] /\ e <> [].
Proof.
  destruct (classifyNiche_total toLowerCase bio declared) as [r Hr].
  destruct (buildBrandTargets_classifier_tags _
              (classifyNiche_primary_tag _ _ _ _ Hr)) as [l [e H]].
  now exists r, l, e.
Qed.

End ClassifierToBrands.

(** ** The qualification pipeline *)

Section PipelineFacts.

Import Server Run.

(** The row appended last is the latest when every other row is strictly
    older, and it was not the latest before. *)
Lemma latestBy_In {R : Type} (key : R -> string) (l : list R) (r : R) :
  latestBy key l = Some r -> In r l.
Proof.
  revert r. induction l as [| x l IH]; intros r; cbn [latestBy].
  - discriminate.
  - destruct (latestBy key l) as [r' |].
    + destruct (String.ltb (key x) (key r')); intros [= <-].
      * right. now apply IH.
      * now left.
    + intros [= <-]. now left.
Qed.

Lemma String_ltb_irrefl (s : string) : String.ltb s s = false.
Proof.
  unfold String.ltb. pose proof (String.compare_antisym s s) as H.
  destruct (String.compare s s); try reflexivity; discriminate H.
Qed.

Lemma latestBy_snoc {R : Type} (key : R -> string) (l : list R) (r : R) :
  Forall (fun x => String.ltb (key x) (key r) = true) l ->
  latestBy key (l ++ [r]) = Some r.
Proof.
  induction 1 as [| x l Hx Hl IH]; [reflexivity |].
  cbn [app latestBy]. rewrite IH, Hx. reflexivity.
Qed.

Lemma latestBy_snoc_new {R : Type} (key : R -> string) (l : list R) (r : R) :
  Forall (fun x => String.ltb (key x) (key r) = true) l ->
  latestBy key (l ++ [r]) = Some r
  /\ latestBy key (l ++ [r]) <> latestBy key l.
Proof.
  intros H. rewrite (latestBy_snoc key l r H). split; [reflexivity |].
  intros E. symmetry in E. apply latestBy_In in E.
  rewrite Forall_forall in H. specialize (H r E).
  rewrite String_ltb_irrefl in H. discriminate H.
Qed.

Variable faults : Stmt -> bool.
Variable toLowerCase : string -> string.
Variables ts snapshot_date day audit_ts id account_id : string.

(** One statement at a time: split on whether it fails, on what the
    classifier returns and on whether a brand list is defined. *)
Ltac run_pipeline :=
  unfold runQualification, logAudit, bindList, bind, query, exec, nanoid,
    ret, throw;
  repeat (match goal with
          | |- context [faults ?s] =>
              let F := fresh "F" in destruct (faults s) eqn:F
          | |- context [classifyNiche ?f ?b ?d] =>
              let N := fresh "N" in
              destruct (classifyNiche f b d) as [niche |] eqn:N
          | |- context [targets_local ?t] =>
              let T := fresh "T" in destruct (targets_local t) eqn:T
          | |- context [targets_ecommerce ?t] =>
              let T := fresh "T" in destruct (targets_ecommerce t) eqn:T
          end;
          cbn [fst snd db nextId isThrow]).

Ltac tables :=
  cbn [creators profile_snapshots content_metrics_daily niche_classification
       creator_scores brand_targets audit_log insertSnapshot insertMetrics
       insertNiche insertScore insertBrandTarget insertAudit updateStatus
       db nextId fst snd].

(** The scores the pipeline computes from its placeholder signals, for a
    niche confidence [c]. *)
Lemma placeholder_scores (c : number) :
  let er := (50 + 5) / 1000 in
  let total :=
    computeTotalScore
      {| erScore := computeErScore er;
         reachScore := Some match computeReachScore false 0 with
                            | Some r => r
                            | None => 0
                            end;
         consistencyScore := computeConsistencyScore (8 / 4);
         nicheScore := computeNicheScore c;
         fraudPenalty := computeFraudPenalty er 1000 8;
         reachAvailable := false |} in
  In (computeNicheScore c, total) [(35, 53); (55, 57); (75, 61); (100, 66)]
  /\ In total [53; 57; 61; 66]
  /\ (total <=? 66) = true
  /\ In (grade total) ["B"; "C"]%string.
Proof.
  cbv zeta. unfold computeNicheScore.
  destruct (geb c 0.75); [vm_compute; intuition |].
  destruct (geb c 0.6); [vm_compute; intuition |].
  destruct (geb c 0.45); vm_compute; intuition.
Qed.

Ltac placeholder_row niche :=
  unfold placeholderRow;
  cbn [cs_er_score cs_consistency_score cs_fraud_penalty cs_reach_score
       cs_niche_score cs_score_total cs_grade nc_confidence];
  destruct (placeholder_scores (confidence niche)) as [Hp [_ [Hl Hg]]];
  repeat split; [ exact Hp | exact Hl | exact Hg ].

Ltac no_result :=
  match goal with
  | N : classifyNiche ?f ?b ?d = None |- _ =>
      destruct (classifyNiche_total f b d) as [? ?]; congruence
  end.

(** C10. Whatever the creator and the store, a run of the pipeline in
    which no statement up to the score insert fails stores exactly one
    score row, for this creator, next to the classification row it has
    just written, and that score row is built from the placeholder
    signals: ER score 70, consistency score 70, fraud penalty 0, reach
    unavailable and stored as 0, and a niche score and total that depend
    on the confidence of that classification alone, the total being the
    reach-less total of 70, 70, the niche score and 0: 53, 57, 61 or 66
    for niche score 35, 55, 75 or 100, so at most 66 and graded B or C,
    never A. A run in which one of those statements fails stores no score
    row at all. *)
Theorem runQualification_placeholder_scores (w : World) :
  let d := db w in
  let d' := db (fst (runQualification faults toLowerCase ts snapshot_date
                                      day audit_ts id account_id w)) in
  if faults SelectCreator || faults InsertSnapshot || faults InsertMetrics
     || faults InsertNiche || faults InsertScore
  then creator_scores d' = creator_scores d
  else exists n s,
         niche_classification d' = niche_classification d ++ [n]
         /\ creator_scores d' = creator_scores d ++ [s]
         /\ nc_creator_id n = id /\ cs_creator_id s = id
         /\ placeholderRow n s
         /\ cs_grade s <> "A"%string.
Proof.
  cbv zeta. run_pipeline; tables; cbn [orb];
    try reflexivity; try no_result.
  all: do 2 eexists;
    split; [reflexivity |]; split; [reflexivity |];
    split; [reflexivity |]; split; [reflexivity |].
  all: split; [placeholder_row niche |].
  all: cbn [cs_grade];
    destruct (placeholder_scores (confidence niche))
      as [_ [_ [_ [Hg | [Hg | []]]]]];
    rewrite <- Hg; discriminate.
Qed.

(** When no statement up to the score insert fails, the run adds exactly
    one score row. *)
Lemma runQualification_adds_score (w : World) :
  faults SelectCreator || faults InsertSnapshot || faults InsertMetrics
  || faults InsertNiche || faults InsertScore = false ->
  exists r,
    creator_scores
      (db (fst (runQualification faults toLowerCase ts snapshot_date day
                                 audit_ts id account_id w)))
    = creator_scores (db w) ++ [r].
Proof.
  run_pipeline; tables; intros Hok; try discriminate Hok;
    try (eexists; reflexivity).
  all: match goal with
  | N : classifyNiche ?f ?b ?d = None |- _ =>
      destruct (classifyNiche_total f b d) as [r Hr]; congruence
  end.
Qed.

(** A run that throws before the audit entry leaves the creators table
    as it was: the status update is the last write but one. *)
Lemma runQualification_throw_keeps_creators (w : World) (e : Error) :
  let r := runQualification faults toLowerCase ts snapshot_date day
                            audit_ts id account_id w in
  snd r = Throw e -> e <> SqliteError InsertAudit ->
  creators (db (fst r)) = creators (db w).
Proof.
  cbv zeta. run_pipeline; tables; intros He Hne;
    try reflexivity; try discriminate He.
  injection He as <-. now contradiction Hne.
Qed.

(** C1 (as the code has it). If the insert of the classification, of the
    score or of either brand-target row fails, the invocation throws and
    the creators table is what it was, so the status of the creator is
    unchanged and not advanced to qualified. Nothing is rolled back: the
    row of every insert that ran before the failing statement is in its
    table, after the rows that were there, that is the snapshot, the
    metrics, the classification, the score and the local brand row, each
    when no statement up to its insert fails. When the classifications
    (scores) stored for the creator were computed strictly before the time
    of the run, the appended row is the one read as latest, and the
    latest row is not what it was before the run. *)
Theorem runQualification_failure_keeps_status (w : World)
  (Hfail : faults InsertNiche || faults InsertScore
           || faults InsertBrandLocal || faults InsertBrandEcommerce = true) :
  let r := runQualification faults toLowerCase ts snapshot_date day
                            audit_ts id account_id w in
  let d := db w in
  let d' := db (fst r) in
  isThrow (snd r) = true
  /\ creators d' = creators d
  /\ statusOf d' id = statusOf d id
  /\ (faults SelectCreator || faults InsertSnapshot = false ->
      exists p, profile_snapshots d' = profile_snapshots d ++ [p]
                /\ ps_account_id p = account_id)
  /\ (faults SelectCreator || faults InsertSnapshot || faults InsertMetrics
      = false ->
      exists m, content_metrics_daily d' = content_metrics_daily d ++ [m]
                /\ cm_account_id m = account_id)
  /\ (faults SelectCreator || faults InsertSnapshot || faults InsertMetrics
      || faults InsertNiche = false ->
      exists n,
        niche_classification d' = niche_classification d ++ [n]
        /\ nc_creator_id n = id /\ nc_computed_at n = ts
        /\ (olderNiche d id ts ->
            latestNiche d' id = Some n
            /\ latestNiche d' id <> latestNiche d id))
  /\ (faults SelectCreator || faults InsertSnapshot || faults InsertMetrics
      || faults InsertNiche || faults InsertScore = false ->
      exists s,
        creator_scores d' = creator_scores d ++ [s]
        /\ cs_creator_id s = id /\ cs_computed_at s = ts
        /\ (olderScore d id ts ->
            latestScore d' id = Some s
            /\ latestScore d' id <> latestScore d id))
  /\ (faults SelectCreator || faults InsertSnapshot || faults InsertMetrics
      || faults InsertNiche || faults InsertScore || faults InsertBrandLocal
      = false ->
      exists b, brand_targets d' = brand_targets d ++ [b]
                /\ bt_creator_id b = id
                /\ bt_target_type b = "local"%string).
Proof.
  cbv zeta.
  assert (Hthrow :
    isThrow (snd (runQualification faults toLowerCase ts snapshot_date day
                                   audit_ts id account_id w)) = true
    /\ creators (db (fst (runQualification faults toLowerCase ts
                            snapshot_date day audit_ts id account_id w)))
       = creators (db w)).
  { revert Hfail. run_pipeline; tables; intros Hfail;
      try (split; reflexivity); discriminate Hfail. }
  destruct Hthrow as [Ht Hc].
  split; [exact Ht |]. split; [exact Hc |].
  split; [unfold statusOf, selectCreator; now rewrite Hc |].
  split; [| split; [| split; [| split]]].
  - clear Ht Hc. revert Hfail.
    run_pipeline; tables; cbn [orb]; intros Hfail Hpre;
      try discriminate Hpre; try discriminate Hfail; try no_result.
    all: eexists; split; reflexivity.
  - clear Ht Hc. revert Hfail.
    run_pipeline; tables; cbn [orb]; intros Hfail Hpre;
      try discriminate Hpre; try discriminate Hfail; try no_result.
    all: eexists; split; reflexivity.
  - clear Ht Hc. unfold olderNiche, latestNiche. revert Hfail.
    run_pipeline; tables; cbn [orb]; intros Hfail Hpre;
      try discriminate Hpre; try discriminate Hfail; try no_result.
    all: eexists; split; [reflexivity |]; split; [reflexivity |];
      split; [reflexivity |]; intros Hold;
      rewrite filter_app; cbn [filter nc_creator_id];
      rewrite String.eqb_refl;
      apply (latestBy_snoc_new nc_computed_at); exact Hold.
  - clear Ht Hc. unfold olderScore, latestScore. revert Hfail.
    run_pipeline; tables; cbn [orb]; intros Hfail Hpre;
      try discriminate Hpre; try discriminate Hfail; try no_result.
    all: eexists; split; [reflexivity |]; split; [reflexivity |];
      split; [reflexivity |]; intros Hold;
      rewrite filter_app; cbn [filter cs_creator_id];
      rewrite String.eqb_refl;
      apply (latestBy_snoc_new cs_computed_at); exact Hold.
  - clear Ht Hc. revert Hfail.
    run_pipeline; tables; cbn [orb]; intros Hfail Hpre;
      try discriminate Hpre; try discriminate Hfail; try no_result.
    all: try (match goal with
              | N : classifyNiche _ _ _ = Some ?n,
                T : targets_local (buildBrandTargets (primary_niche ?n))
                    = None |- _ =>
                  destruct (buildBrandTargets_classifier_tags _
                              (classifyNiche_primary_tag _ _ _ _ N))
                    as [? [? [Hb _]]];
                  rewrite Hb in T; discriminate T
              end).
    all: try (eexists; split; [reflexivity |]; split; reflexivity).
Qed.

End PipelineFacts.

(** With the score insert failing on a store that has one connected
    creator, the run throws, the status stays connected, and the
    classification written before the failure is what a reader now sees
    as current. *)
Example runQualification_partial_write :
  let r := Server.runQualification (Server.failAt Server.InsertScore)
             toLowerCaseAscii "2026-02-01T10:00:00.000Z" "2026-02-01"
             "2026-02-01" "2026-02-01T10:00:00.001Z" "c1" "a1"
             Server.exampleWorld in
  snd r = Server.Throw (Server.SqliteError Server.InsertScore)
  /\ Server.statusOf (Server.db (fst r)) "c1" = Some "connected"%string
  /\ Server.latestNiche (Server.db Server.exampleWorld) "c1" = None
  /\ option_map Server.nc_primary_niche
       (Server.latestNiche (Server.db (fst r)) "c1") = Some "food"%string
  /\ Server.latestScore (Server.db (fst r)) "c1" = None.
Proof. vm_compute. repeat split. Qed.

(** When the failing statement is the classification insert, the rows
    written before it are the snapshot and the metrics only: they stay,
    and the view of the creator is what it was. *)
Example runQualification_niche_failure :
  let r := Server.runQualification (Server.failAt Server.InsertNiche)
             toLowerCaseAscii "2026-02-01T10:00:00.000Z" "2026-02-01"
             "2026-02-01" "2026-02-01T10:00:00.001Z" "c1" "a1"
             Server.exampleWorld in
  snd r = Server.Throw (Server.SqliteError Server.InsertNiche)
  /\ List.length (Server.profile_snapshots (Server.db (fst r))) = 1%nat
  /\ List.length (Server.content_metrics_daily (Server.db (fst r))) = 1%nat
  /\ Server.currentView (Server.db (fst r)) "c1"
     = Server.currentView (Server.db Server.exampleWorld) "c1".
Proof. vm_compute. repeat split. Qed.

(** C1, counterexample. A failed run is not all-or-nothing: in the run
    above the view of the creator after the throw differs from the view
    before it. *)
Lemma atomicOnFailure_counterexample : ~ Server.atomicOnFailure.
Proof.
  intros H.
  specialize (H (Server.failAt Server.InsertScore) toLowerCaseAscii
                "2026-02-01T10:00:00.000Z"%string "2026-02-01"%string
                "2026-02-01"%string "2026-02-01T10:00:00.001Z"%string
                "c1"%string "a1"%string Server.exampleWorld).
  cbv zeta in H. specialize (H eq_refl).
  vm_compute in H. discriminate H.
Qed.

Lemma runQualification_failure_keeps_status_witness :
  let r := Server.runQualification (Server.failAt Server.InsertScore)
             toLowerCaseAscii "2026-02-02T10:00:00.000Z" "2026-02-02"
             "2026-02-02" "2026-02-02T10:00:00.001Z" "c1" "a1"
             Run.exampleWorldAfterRun in
  Server.isThrow (snd r) = true
  /\ Server.statusOf (Server.db (fst r)) "c1"
     = Server.statusOf (Server.db Run.exampleWorldAfterRun) "c1"
  /\ exists n,
       Server.niche_classification (Server.db (fst r))
       = Server.niche_classification (Server.db Run.exampleWorldAfterRun)
         ++ [n]
       /\ Server.latestNiche (Server.db (fst r)) "c1" = Some n
       /\ Server.latestNiche (Server.db (fst r)) "c1"
          <> Server.latestNiche (Server.db Run.exampleWorldAfterRun) "c1".
Proof.
  destruct (runQualification_failure_keeps_status
              (Server.failAt Server.InsertScore) toLowerCaseAscii
              "2026-02-02T10:00:00.000Z" "2026-02-02" "2026-02-02"
              "2026-02-02T10:00:00.001Z" "c1" "a1" Run.exampleWorldAfterRun
              eq_refl)
    as [Ht [_ [Hs [_ [_ [Hn _]]]]]].
  destruct (Hn eq_refl) as [n [Hrow [_ [_ Hlatest]]]].
  assert (Hold : Run.olderNiche (Server.db Run.exampleWorldAfterRun) "c1"
                   "2026-02-02T10:00:00.000Z").
  { vm_compute. repeat constructor. }
  destruct (Hlatest Hold) as [Hl Hd].
  split; [exact Ht |]. split; [exact Hs |].
  exists n. split; [exact Hrow |]. split; [exact Hl | exact Hd].
Defined.

(** A failure of the last statement, the audit entry, comes after the
    status update: the run throws and the creator is already
    qualified. *)
Example runQualification_audit_failure :
  let r := Server.runQualification (Server.failAt Server.InsertAudit)
             toLowerCaseAscii "2026-02-01T10:00:00.000Z" "2026-02-01"
             "2026-02-01" "2026-02-01T10:00:00.001Z" "c1" "a1"
             Server.exampleWorld in
  snd r = Server.Throw (Server.SqliteError Server.InsertAudit)
  /\ Server.statusOf (Server.db (fst r)) "c1" = Some "qualified"%string.
Proof. vm_compute. repeat split. Qed.

(** Without a failing statement the run returns, the creator is
    qualified, and one score row is added: total 66, grade B for a
    declared category that names food only. *)
Example runQualification_no_fault :
  let r := Server.runQualification Server.noFault toLowerCaseAscii
             "2026-02-01T10:00:00.000Z" "2026-02-01" "2026-02-01"
             "2026-02-01T10:00:00.001Z" "c1" "a1" Server.exampleWorld in
  snd r = Server.Ok tt
  /\ Server.statusOf (Server.db (fst r)) "c1" = Some "qualified"%string
  /\ map (fun s => (Server.cs_score_total s, Server.cs_grade s))
         (Server.creator_scores (Server.db (fst r))) = [(66, "B"%string)]
  /\ List.length (Server.brand_targets (Server.db (fst r))) = 2%nat.
Proof. vm_compute. repeat split. Qed.

Section PipelineEffects.

Import Server Run.

Variable faults : Stmt -> bool.
Variable toLowerCase : string -> string.
Variables ts snapshot_date day audit_ts id account_id : string.

Ltac step_pipeline :=
  unfold runQualification, logAudit, bindList, bind, query, exec, nanoid,
    ret, throw;
  repeat (match goal with
          | |- context [faults ?s] =>
              let F := fresh "F" in destruct (faults s) eqn:F
          | |- context [classifyNiche ?f ?b ?d] =>
              let N := fresh "N" in
              destruct (classifyNiche f b d) as [niche |] eqn:N
          | |- context [targets_local ?t] =>
              let T := fresh "T" in destruct (targets_local t) eqn:T
          | |- context [targets_ecommerce ?t] =>
              let T := fresh "T" in destruct (targets_ecommerce t) eqn:T
          end;
          cbn [fst snd db nextId isThrow]).

Ltac db_fields :=
  cbn [creators profile_snapshots content_metrics_daily niche_classification
       creator_scores brand_targets audit_log insertSnapshot insertMetrics
       insertNiche insertScore insertBrandTarget insertAudit updateStatus
       db nextId fst snd].

(** The classifier returns a result and the brand table has both lists
    for its primary niche, so neither of the two can be missing. *)
Ltac no_type_error :=
  match goal with
  | N : classifyNiche ?f ?b ?d = None |- _ =>
      destruct (classifyNiche_total f b d) as [? ?]; congruence
  | N : classifyNiche ?f ?b ?d = Some ?n,
    T : _ (buildBrandTargets (primary_niche ?n)) = None |- _ =>
      destruct (buildBrandTargets_classifier_tags _
                  (classifyNiche_primary_tag _ _ _ _ N)) as [? [? [Hb _]]];
      rewrite Hb in T; discriminate T
  end.

Lemma firstFault_eq :
  firstFault faults
  = if faults SelectCreator then Some SelectCreator
    else if faults InsertSnapshot then Some InsertSnapshot
    else if faults InsertMetrics then Some InsertMetrics
    else if faults InsertNiche then Some InsertNiche
    else if faults InsertScore then Some InsertScore
    else if faults InsertBrandLocal then Some InsertBrandLocal
    else if faults InsertBrandEcommerce then Some InsertBrandEcommerce
    else if faults UpdateStatus then Some UpdateStatus
    else if faults InsertAudit then Some InsertAudit
    else None.
Proof. reflexivity. Qed.

(** X12. What a run returns is decided by the statements alone: it
    throws the error of the first statement, in program order, that
    fails, and returns normally when none does. The classifier's result
    always has brand lists, so the run never throws a type error for a
    missing list. *)
Theorem runQualification_outcome (w : World) :
  snd (runQualification faults toLowerCase ts snapshot_date day audit_ts
                        id account_id w)
  = match firstFault faults with
    | Some s => Throw (SqliteError s)
    | None => Ok tt
    end.
Proof.
  rewrite firstFault_eq. step_pipeline; try reflexivity; no_type_error.
Qed.

Lemma qualify_identity (l : list Creator) :
  map identity (map (qualify id ts) l) = map identity l.
Proof.
  rewrite map_map. apply map_ext. intros c. unfold qualify.
  now destruct (String.eqb (creator_id c) id).
Qed.

Lemma qualify_others (l : list Creator) :
  filter (fun c => negb (String.eqb (creator_id c) id)) (map (qualify id ts) l)
  = filter (fun c => negb (String.eqb (creator_id c) id)) l.
Proof.
  induction l as [| c l IH]; [reflexivity |].
  cbn [map filter]. unfold qualify at 1 2.
  destruct (String.eqb (creator_id c) id) eqn:E; cbn [creator_id negb].
  - rewrite E. exact IH.
  - rewrite E. cbn [negb]. now rewrite IH.
Qed.

Lemma qualify_status (l : list Creator) :
  option_map status
    (find (fun c => String.eqb (creator_id c) id) (map (qualify id ts) l))
  = option_map (fun _ => "qualified"%string)
      (option_map status (find (fun c => String.eqb (creator_id c) id) l)).
Proof.
  induction l as [| c l IH]; [reflexivity |].
  cbn [map find]. unfold qualify at 1 2.
  destruct (String.eqb (creator_id c) id) eqn:E; cbn [creator_id].
  - rewrite E. reflexivity.
  - rewrite E. exact IH.
Qed.

Lemma grew_refl {R : Type} (l : list R) : grew l l.
Proof. exists []. symmetry. apply app_nil_r. Qed.

Lemma grew_snoc {R : Type} (l l' : list R) (x : R) :
  grew l l' -> grew l (l' ++ [x]).
Proof. intros [e ->]. exists (e ++ [x]). symmetry. apply app_assoc. Qed.

(** X13. A run in which no statement fails returns normally and leaves
    a coherent set of rows: the creator is qualified whatever the status
    was and no other creator row changes; each of the snapshot, metrics,
    classification, score and audit tables gets one row and the brand
    table two (local, then ecommerce), all for this creator and account;
    both brand rows carry the primary niche of the new classification
    and the non-empty lists of the brand table for it; the score row's
    niche score and grade come from the new classification and its own
    total; the audit entry repeats the grade, total and niche of the rows
    just written. *)
Theorem runQualification_success (w : World)
  (Hok : forall s, faults s = false) :
  let r := runQualification faults toLowerCase ts snapshot_date day
                            audit_ts id account_id w in
  let d := db w in
  let d' := db (fst r) in
  snd r = Ok tt
  /\ creators d' = map (qualify id ts) (creators d)
  /\ statusOf d' id
     = option_map (fun _ => "qualified"%string) (statusOf d id)
  /\ exists p m n s bl be a,
       profile_snapshots d' = profile_snapshots d ++ [p]
       /\ content_metrics_daily d' = content_metrics_daily d ++ [m]
       /\ niche_classification d' = niche_classification d ++ [n]
       /\ creator_scores d' = creator_scores d ++ [s]
       /\ brand_targets d' = brand_targets d ++ [bl; be]
       /\ audit_log d' = audit_log d ++ [a]
       /\ ps_account_id p = account_id /\ cm_account_id m = account_id
       /\ nc_creator_id n = id /\ cs_creator_id s = id
       /\ bt_creator_id bl = id /\ bt_creator_id be = id
       /\ bt_target_type bl = "local"%string
       /\ bt_target_type be = "ecommerce"%string
       /\ bt_segment bl = nc_primary_niche n
       /\ bt_segment be = nc_primary_niche n
       /\ buildBrandTargets (nc_primary_niche n)
          = {| targets_local := Some (bt_suggested_brands bl);
               targets_ecommerce := Some (bt_suggested_brands be) |}
       /\ bt_suggested_brands bl <> []
       /\ bt_suggested_brands be <> []
       /\ cs_niche_score s = computeNicheScore (nc_confidence n)
       /\ cs_grade s = grade (cs_score_total s)
       /\ al_action a = "QUALIFIED"%string
       /\ al_target_id a = id
       /\ al_metadata a
          = Some {| md_grade := cs_grade s; md_score := cs_score_total s;
                    md_niche := nc_primary_niche n |}.
Proof.
  cbv zeta. unfold statusOf, selectCreator.
  step_pipeline;
    try (match goal with
         | F : faults ?s = true |- _ => rewrite Hok in F; discriminate F
         end);
    try no_type_error.
  db_fields.
  destruct (buildBrandTargets_classifier_tags _
              (classifyNiche_primary_tag _ _ _ _ N)) as [bl0 [be0 [Hb [Hl He]]]].
  rewrite Hb in T, T0. cbn [targets_local targets_ecommerce] in T, T0.
  injection T as <-. injection T0 as <-.
  split; [reflexivity |]. split; [reflexivity |].
  split; [apply qualify_status |].
  do 7 eexists.
  split; [reflexivity |]. split; [reflexivity |]. split; [reflexivity |].
  split; [reflexivity |].
  split; [rewrite <- app_assoc; reflexivity |].
  split; [reflexivity |].
  cbn [ps_account_id cm_account_id nc_creator_id cs_creator_id bt_creator_id
       bt_target_type bt_segment nc_primary_niche bt_suggested_brands
       cs_niche_score nc_confidence cs_grade cs_score_total al_action
       al_target_id al_metadata].
  repeat (split; [first [reflexivity | assumption] |]).
  reflexivity.
Qed.

(** X14. Whatever fails, a run only appends: every table other than the
    creators keeps its old rows in place, before any new one; the
    creators table keeps its rows' ids and declared categories, every
    row of another creator is untouched, and the status of this creator
    is what it was or qualified. *)
Theorem runQualification_append_only (w : World) :
  let d := db w in
  let d' := db (fst (runQualification faults toLowerCase ts snapshot_date
                                      day audit_ts id account_id w)) in
  map identity (creators d') = map identity (creators d)
  /\ filter (fun c => negb (String.eqb (creator_id c) id)) (creators d')
     = filter (fun c => negb (String.eqb (creator_id c) id)) (creators d)
  /\ (statusOf d' id = statusOf d id
      \/ statusOf d' id = Some "qualified"%string)
  /\ grew (profile_snapshots d) (profile_snapshots d')
  /\ grew (content_metrics_daily d) (content_metrics_daily d')
  /\ grew (niche_classification d) (niche_classification d')
  /\ grew (creator_scores d) (creator_scores d')
  /\ grew (brand_targets d) (brand_targets d')
  /\ grew (audit_log d) (audit_log d').
Proof.
  cbv zeta.
  assert (Hst : forall l,
    option_map status
      (find (fun c => String.eqb (creator_id c) id) (map (qualify id ts) l))
    = option_map status (find (fun c => String.eqb (creator_id c) id) l)
    \/ option_map status
         (find (fun c => String.eqb (creator_id c) id) (map (qualify id ts) l))
       = Some "qualified"%string).
  { intros l. rewrite qualify_status.
    destruct (option_map status _); [right | left]; reflexivity. }
  unfold statusOf, selectCreator.
  step_pipeline; db_fields; fold (qualify id ts).
  all: split; [first [reflexivity | apply qualify_identity] |].
  all: split; [first [reflexivity | apply qualify_others] |].
  all: split; [first [left; reflexivity | apply Hst] |].
  all: repeat split; repeat apply grew_snoc; apply grew_refl.
Qed.

(** X15. When no statement fails and every classification and score
    stored for the creator was computed strictly before the time of the
    run, the rows the run appends are the ones the overview reads as
    latest. *)
Theorem runQualification_latest_visible (w : World)
  (Hok : forall s, faults s = false)
  (Hn : Forall (fun r => String.ltb (nc_computed_at r) ts = true)
          (filter (fun r => String.eqb (nc_creator_id r) id)
                  (niche_classification (db w))))
  (Hs : Forall (fun r => String.ltb (cs_computed_at r) ts = true)
          (filter (fun r => String.eqb (cs_creator_id r) id)
                  (creator_scores (db w)))) :
  let d' := db (fst (runQualification faults toLowerCase ts snapshot_date
                                      day audit_ts id account_id w)) in
  exists n s,
    niche_classification d' = niche_classification (db w) ++ [n]
    /\ creator_scores d' = creator_scores (db w) ++ [s]
    /\ latestNiche d' id = Some n
    /\ latestScore d' id = Some s
    /\ nc_computed_at n = ts /\ cs_computed_at s = ts.
Proof.
  cbv zeta. unfold latestNiche, latestScore. revert Hn Hs.
  step_pipeline;
    try (match goal with
         | F : faults ?s = true |- _ => rewrite Hok in F; discriminate F
         end);
    try no_type_error.
  db_fields. intros Hn Hs. do 2 eexists.
  split; [reflexivity |]. split; [reflexivity |].
  rewrite !filter_app. cbn [filter nc_creator_id cs_creator_id].
  rewrite String.eqb_refl.
  split; [apply latestBy_snoc; exact Hn |].
  split; [apply latestBy_snoc; exact Hs |].
  split; reflexivity.
Qed.

End PipelineEffects.

Lemma runQualification_success_witness :
  snd (Server.runQualification Server.noFault toLowerCaseAscii
         "2026-02-01T10:00:00.000Z" "2026-02-01" "2026-02-01"
         "2026-02-01T10:00:00.001Z" "c1" "a1" Server.exampleWorld)
  = Server.Ok tt.
Proof.
  exact (proj1 (runQualification_success Server.noFault toLowerCaseAscii
                  "2026-02-01T10:00:00.000Z" "2026-02-01" "2026-02-01"
                  "2026-02-01T10:00:00.001Z" "c1" "a1" Server.exampleWorld
                  (fun _ => eq_refl))).
Defined.

(** A second run, one day after the first, on the store the first left:
    its classification is the one read as latest. *)
Lemma runQualification_latest_visible_witness :
  let d' := Server.db (fst (Server.runQualification Server.noFault
                              toLowerCaseAscii "2026-02-02T10:00:00.000Z"
                              "2026-02-02" "2026-02-02"
                              "2026-02-02T10:00:00.001Z" "c1" "a1"
                              Run.exampleWorldAfterRun)) in
  List.length (Server.niche_classification (Server.db Run.exampleWorldAfterRun))
  = 1%nat
  /\ exists n s,
       Server.niche_classification d'
       = Server.niche_classification (Server.db Run.exampleWorldAfterRun) ++ [n]
       /\ Server.creator_scores d'
          = Server.creator_scores (Server.db Run.exampleWorldAfterRun) ++ [s]
       /\ Server.latestNiche d' "c1" = Some n
       /\ Server.latestScore d' "c1" = Some s
       /\ Server.nc_computed_at n = "2026-02-02T10:00:00.000Z"%string
       /\ Server.cs_computed_at s = "2026-02-02T10:00:00.000Z"%string.
Proof.
  split; [reflexivity |].
  apply (runQualification_latest_visible Server.noFault toLowerCaseAscii
           "2026-02-02T10:00:00.000Z" "2026-02-02" "2026-02-02"
           "2026-02-02T10:00:00.001Z" "c1" "a1" Run.exampleWorldAfterRun
           (fun _ => eq_refl)).
  - vm_compute. repeat constructor.
  - vm_compute. repeat constructor.
Defined.

(** * The authorisation URL *)

Section MetaFacts.

Import Meta.
Local Open Scope string_scope.

Lemma occurrences_app (c : ascii) (a b : string) :
  occurrences c (a ++ b) = (occurrences c a + occurrences c b)%nat.
Proof.
  induction a as [| d a IH]; [reflexivity |].
  cbn [append occurrences]. rewrite IH. apply Nat.add_assoc.
Qed.

Lemma hexDigit_unreserved (n : nat) :
  (n < 16)%nat -> uriUnreserved (hexDigit n) = true.
Proof.
  intros H. do 16 (destruct n as [| n]; [reflexivity |]). lia.
Qed.

Lemma hexDigit_inj (a b : nat) :
  (a < 16)%nat -> (b < 16)%nat -> hexDigit a = hexDigit b -> a = b.
Proof.
  intros Ha Hb.
  do 16 (destruct a as [| a];
         [ do 16 (destruct b as [| b];
                  [ first [reflexivity | discriminate] |]); lia |]).
  lia.
Qed.

Lemma nat_of_ascii_bound (c : ascii) : (nat_of_ascii c < 256)%nat.
Proof. apply nat_ascii_bounded. Qed.

Lemma occurrences_encodeByte (c d : ascii) :
  uriUnreserved c = false -> c <> "%"%char ->
  occurrences c (encodeByte d) = 0%nat.
Proof.
  intros Hc Hp. unfold encodeByte, percentEncode.
  pose proof (nat_of_ascii_bound d) as Hd.
  assert (Hne : forall x, uriUnreserved x = true -> Ascii.eqb x c = false).
  { intros x Hx. apply Ascii.eqb_neq. intros ->. congruence. }
  assert (Hh : uriUnreserved (hexDigit (nat_of_ascii d / 16)) = true).
  { apply hexDigit_unreserved. apply Nat.Div0.div_lt_upper_bound. exact Hd. }
  assert (Hl : uriUnreserved (hexDigit (nat_of_ascii d mod 16)) = true).
  { apply hexDigit_unreserved. apply Nat.mod_upper_bound. discriminate. }
  destruct (uriUnreserved d) eqn:Ud; cbn [occurrences].
  - now rewrite (Hne d Ud).
  - rewrite (Hne _ Hh), (Hne _ Hl).
    destruct (Ascii.eqb_spec "%"%char c) as [E | E]; [| reflexivity].
    now contradiction Hp.
Qed.

(** A character that [encodeURIComponent] does not leave alone, other
    than the percent sign, does not occur in its result. *)
Lemma occurrences_encodeURIComponent (c : ascii) (s : string) :
  uriUnreserved c = false -> c <> "%"%char ->
  occurrences c (encodeURIComponent s) = 0%nat.
Proof.
  intros Hc Hp. induction s as [| d s IH]; [reflexivity |].
  cbn [encodeURIComponent].
  now rewrite occurrences_app, IH, occurrences_encodeByte.
Qed.

(** X16. The values put into the authorisation URL cannot add a
    delimiter to it: a character that is neither unreserved nor the
    percent sign occurs in the URL exactly as often as in the URL built
    from empty values, whatever the client id, redirect URI, state and
    scopes are. *)
Theorem buildAuthUrl_delimiters (clientId redirectUri : option string)
  (state : string) (scopes : list string) (c : ascii) :
  uriUnreserved c = false -> c <> "%"%char ->
  occurrences c (buildAuthUrl clientId redirectUri state scopes)
  = occurrences c (buildAuthUrl (Some "") (Some "") "" []).
Proof.
  intros Hc Hp. unfold buildAuthUrl. cbv zeta.
  rewrite !occurrences_app.
  rewrite !(occurrences_encodeURIComponent c _ Hc Hp). reflexivity.
Qed.

Lemma append_inv_head (a x y : string) : a ++ x = a ++ y -> x = y.
Proof.
  induction a as [| d a IH]; [trivial |].
  cbn [append]. intros [= H]. auto.
Qed.

(** Two strings cut at the first occurrence of a character. *)
Lemma split_first_unique (c : ascii) (a a' x x' : string) :
  occurrences c a = 0%nat -> occurrences c a' = 0%nat ->
  a ++ String c x = a' ++ String c x' -> a = a' /\ x = x'.
Proof.
  revert a'. induction a as [| d a IH]; intros [| d' a'];
    cbn [append occurrences]; intros Ha Ha' H.
  - injection H as ->. now split.
  - injection H as <- _. rewrite Ascii.eqb_refl in Ha'. discriminate.
  - injection H as -> _. rewrite Ascii.eqb_refl in Ha. discriminate.
  - injection H as -> H.
    destruct (IH a') as [-> ->]; [lia | lia | exact H |]. now split.
Qed.

Lemma encodeByte_inj (c1 c2 : ascii) (r1 r2 : string) :
  encodeByte c1 ++ r1 = encodeByte c2 ++ r2 -> c1 = c2 /\ r1 = r2.
Proof.
  unfold encodeByte, percentEncode.
  pose proof (nat_of_ascii_bound c1) as B1.
  pose proof (nat_of_ascii_bound c2) as B2.
  pose proof (Nat.div_mod_eq (nat_of_ascii c1) 16) as E1.
  pose proof (Nat.div_mod_eq (nat_of_ascii c2) 16) as E2.
  assert (H1 : (nat_of_ascii c1 / 16 < 16)%nat)
    by (apply Nat.Div0.div_lt_upper_bound; exact B1).
  assert (H2 : (nat_of_ascii c2 / 16 < 16)%nat)
    by (apply Nat.Div0.div_lt_upper_bound; exact B2).
  assert (L1 : (nat_of_ascii c1 mod 16 < 16)%nat)
    by (apply Nat.mod_upper_bound; discriminate).
  assert (L2 : (nat_of_ascii c2 mod 16 < 16)%nat)
    by (apply Nat.mod_upper_bound; discriminate).
  revert E1 E2 H1 H2 L1 L2.
  generalize (nat_of_ascii c1 / 16)%nat (nat_of_ascii c1 mod 16)%nat
             (nat_of_ascii c2 / 16)%nat (nat_of_ascii c2 mod 16)%nat.
  intros h1 l1 h2 l2 E1 E2 H1 H2 L1 L2.
  destruct (uriUnreserved c1) eqn:U1, (uriUnreserved c2) eqn:U2;
    cbn [append]; intros H.
  - injection H as -> ->. now split.
  - injection H as -> _. discriminate U1.
  - injection H as <- _. discriminate U2.
  - injection H as Hh Hl ->.
    apply hexDigit_inj in Hh; [| assumption | assumption].
    apply hexDigit_inj in Hl; [| assumption | assumption].
    split; [| reflexivity].
    rewrite <- (ascii_nat_embedding c1), <- (ascii_nat_embedding c2).
    f_equal. lia.
Qed.

Lemma encodeByte_not_empty (c : ascii) (r : string) :
  encodeByte c ++ r <> "".
Proof.
  unfold encodeByte, percentEncode.
  destruct (uriUnreserved c); discriminate.
Qed.

Lemma encodeURIComponent_inj (s1 s2 : string) :
  encodeURIComponent s1 = encodeURIComponent s2 -> s1 = s2.
Proof.
  revert s2. induction s1 as [| c1 s1 IH]; intros [| c2 s2];
    cbn [encodeURIComponent]; intros H.
  - reflexivity.
  - symmetry in H. now apply encodeByte_not_empty in H.
  - now apply encodeByte_not_empty in H.
  - apply encodeByte_inj in H as [-> H]. now rewrite (IH _ H).
Qed.

Ltac strip H :=
  cbn [append] in H; repeat (injection H as H).

(** X17. The authorisation URL determines its four values: two URLs are
    equal only if the client ids, the redirect URIs (an unset one reads
    as undefined), the states and the comma-joined scopes are equal. In
    particular the state can be read back from the URL. *)
Theorem buildAuthUrl_injective (c1 c2 r1 r2 : option string)
  (s1 s2 : string) (sc1 sc2 : list string) :
  buildAuthUrl c1 r1 s1 sc1 = buildAuthUrl c2 r2 s2 sc2 ->
  envString c1 = envString c2 /\ envString r1 = envString r2
  /\ s1 = s2 /\ String.concat "," sc1 = String.concat "," sc2.
Proof.
  unfold buildAuthUrl. cbv zeta. intros H.
  assert (Hamp : forall s, occurrences "&" (encodeURIComponent s) = 0%nat).
  { intros s. apply occurrences_encodeURIComponent;
      [reflexivity | discriminate]. }
  apply append_inv_head in H.
  apply split_first_unique in H as [Hc H]; [| apply Hamp | apply Hamp].
  apply (append_inv_head "redirect_uri=") in H.
  apply split_first_unique in H as [Hr H]; [| apply Hamp | apply Hamp].
  apply (append_inv_head "state=") in H.
  apply split_first_unique in H as [Hs H]; [| apply Hamp | apply Hamp].
  apply (append_inv_head "response_type=code&scope=") in H.
  repeat split; now apply encodeURIComponent_inj.
Qed.

End MetaFacts.

Lemma buildAuthUrl_delimiters_witness :
  Meta.occurrences "&"
    (Meta.buildAuthUrl (Some "1234"%string) None "id=7&x#y" ["public_profile"; "email"]%string)
  = 4%nat.
Proof.
  exact (eq_trans
           (buildAuthUrl_delimiters (Some "1234"%string) None "id=7&x#y"
              ["public_profile"; "email"]%string "&"%char eq_refl
              ltac:(discriminate))
           eq_refl).
Defined.

Lemma buildAuthUrl_injective_witness :
  Meta.envString None = Meta.envString (Some "undefined"%string)
  /\ Meta.envString (Some "https://a.example/cb"%string)
     = Meta.envString (Some "https://a.example/cb"%string)
  /\ "s"%string = "s"%string
  /\ String.concat "," ["a,b"%string] = String.concat "," ["a"; "b"]%string.
Proof.
  apply (buildAuthUrl_injective None (Some "undefined"%string)
           (Some "https://a.example/cb"%string)
           (Some "https://a.example/cb"%string) "s" "s"
           ["a,b"%string] ["a"; "b"]%string).
  reflexivity.
Defined.
